(** * FindEmailCSV: a shallow embedding of [FindEmailCSV.py]

    The development follows the Python source top-down:

    - Python [str] and [bytes] values, with the text-mode file layer;
    - [hashlib.sha256(...).hexdigest()] (FIPS 180-4) as an executable function;
    - the fragment of [re] that the e-mail pattern uses, with the
      backtracking matcher and [re.findall];
    - the application state of [EmailFinderApp] and a state-and-exception
      monad in which the methods [open_file], [generate_hash],
      [verify_hash], [find_emails] and [save_results] are transcribed;
    - the theorems about those methods.

    Modelling conventions.  Text files are read and written with a one-byte
    encoding (a Latin-1 locale; for ASCII content this coincides with UTF-8),
    on a POSIX platform, so that writing text performs no newline translation
    and reading text performs Python's universal-newline translation.  The
    pandas reader and the iteration order of a Python [set] are parameters
    of the model. *)

From Stdlib Require Import ZArith Ascii String.
From stdpp Require Import gmap list strings.

Local Open Scope Z_scope.

(** ** Python [str] and [bytes]

    A [str] is the list of its code points below 256; a [bytes] object is the
    list of its octets.  Both are lists of [ascii]. *)

Abbreviation pystr := (list ascii).
Abbreviation pybytes := (list ascii).

(** String literals of the source. *)
Definition lit (s : string) : pystr := list_ascii_of_string s.

Definition LF : ascii := ascii_of_nat 10.
Definition CR : ascii := ascii_of_nat 13.

Definition ord (c : ascii) : Z := Z.of_N (N_of_ascii c).
Definition chr (z : Z) : ascii := ascii_of_N (Z.to_N z).

(** [str.isspace] on one character, restricted to code points below 256:
    TAB, LF, VT, FF, CR, the separators FS, GS, RS, US, the space, NEL
    (U+0085) and the no-break space (U+00A0). *)
Definition isspace (c : ascii) : bool :=
  let n := ord c in
  ((9 <=? n) && (n <=? 13)) || ((28 <=? n) && (n <=? 32))
  || (n =? 133) || (n =? 160).

Fixpoint lstrip (s : pystr) : pystr :=
  match s with
  | [] => []
  | c :: s' => if isspace c then lstrip s' else s
  end.

Definition rstrip (s : pystr) : pystr := rev (lstrip (rev s)).

(** [s.strip()]: leading and trailing whitespace removed. *)
Definition strip (s : pystr) : pystr := rstrip (lstrip s).

(** [sep.join(parts)]. *)
Fixpoint join (sep : pystr) (parts : list pystr) : pystr :=
  match parts with
  | [] => []
  | [p] => p
  | p :: ps => p ++ sep ++ join sep ps
  end.

(** Universal newlines, applied by [open(path, 'r').read()]: the pairs CR LF
    and the lone CR both become LF. *)
Fixpoint universal_newlines (s : pybytes) : pystr :=
  match s with
  | [] => []
  | c :: s' =>
      if decide (c = CR) then
        match s' with
        | c' :: s'' =>
            if decide (c' = LF) then LF :: universal_newlines s''
            else LF :: universal_newlines s'
        | [] => [LF]
        end
      else c :: universal_newlines s'
  end.

(** ** [hashlib.sha256]: SHA-256 as in FIPS 180-4 *)

Module SHA256.

Definition mask32 : Z := 2 ^ 32.
Definition add32 (x y : Z) : Z := (x + y) mod mask32.
Definition not32 (x : Z) : Z := Z.lxor x (mask32 - 1).
Definition ROTR (n x : Z) : Z :=
  Z.lor (Z.shiftr x n) (Z.shiftl x (32 - n) mod mask32).
Definition SHR (n x : Z) : Z := Z.shiftr x n.

Definition Ch (x y z : Z) : Z := Z.lxor (Z.land x y) (Z.land (not32 x) z).
Definition Maj (x y z : Z) : Z :=
  Z.lxor (Z.lxor (Z.land x y) (Z.land x z)) (Z.land y z).
Definition Sigma0 (x : Z) : Z := Z.lxor (Z.lxor (ROTR 2 x) (ROTR 13 x)) (ROTR 22 x).
Definition Sigma1 (x : Z) : Z := Z.lxor (Z.lxor (ROTR 6 x) (ROTR 11 x)) (ROTR 25 x).
Definition sigma0 (x : Z) : Z := Z.lxor (Z.lxor (ROTR 7 x) (ROTR 18 x)) (SHR 3 x).
Definition sigma1 (x : Z) : Z := Z.lxor (Z.lxor (ROTR 17 x) (ROTR 19 x)) (SHR 10 x).

(** The first sixty-four primes. *)
Fixpoint sieve (fuel : nat) (n : Z) (found : list Z) : list Z :=
  match fuel with
  | O => found
  | S fuel' =>
      if forallb (fun p => negb (n mod p =? 0)) found
      then sieve fuel' (n + 1) (found ++ [n])
      else sieve fuel' (n + 1) found
  end.

Definition primes64 : list Z := Eval vm_compute in sieve 310 2 [].

(** Integer cube root by bisection on [lo <= r < hi]. *)
Fixpoint icbrt_aux (fuel : nat) (lo hi x : Z) : Z :=
  match fuel with
  | O => lo
  | S fuel' =>
      let mid := (lo + hi) / 2 in
      if mid * mid * mid <=? x then icbrt_aux fuel' mid hi x
      else icbrt_aux fuel' lo mid x
  end.

Definition icbrt (x : Z) : Z := icbrt_aux 40 0 (2 ^ 36) x.

(** The round constants: the first 32 bits of the fractional parts of the
    cube roots of the first sixty-four primes. *)
Definition K : list Z :=
  Eval vm_compute in map (fun p => icbrt (p * 2 ^ 96) mod mask32) primes64.

(** The initial hash value: the first 32 bits of the fractional parts of the
    square roots of the first eight primes. *)
Definition H0 : list Z :=
  Eval vm_compute in map (fun p => Z.sqrt (p * 2 ^ 64) mod mask32) (take 8 primes64).

(** Big-endian encodings. *)
Fixpoint be_bytes (n : nat) (x : Z) : list Z :=
  match n with
  | O => []
  | S n' => be_bytes n' (x / 256) ++ [x mod 256]
  end.

Definition be_word (bs : list Z) : Z :=
  fold_left (fun acc b => acc * 256 + b) bs 0.

(** Padding: the bit 1, zero bits up to 448 modulo 512, and the length in
    bits on 64 bits. *)
Definition pad (msg : list Z) : list Z :=
  let l := Z.of_nat (length msg) in
  let k := (55 - l) mod 64 in
  msg ++ [128] ++ repeat 0 (Z.to_nat k) ++ be_bytes 8 (8 * l).

Fixpoint chunks_of (fuel : nat) (n : nat) (l : list Z) : list (list Z) :=
  match fuel with
  | O => []
  | S fuel' =>
      match l with
      | [] => []
      | _ => take n l :: chunks_of fuel' n (drop n l)
      end
  end.

Definition words_of_block (block : list Z) : list Z :=
  map be_word (chunks_of 16 4 block).

(** Message schedule: sixteen words of the block, then forty-eight more. *)
Fixpoint extend (n : nat) (W : list Z) : list Z :=
  match n with
  | O => W
  | S n' =>
      let t := length W in
      let wt :=
        add32 (add32 (add32 (sigma1 (nth (t - 2) W 0)) (nth (t - 7) W 0))
                     (sigma0 (nth (t - 15) W 0)))
              (nth (t - 16) W 0) in
      extend n' (W ++ [wt])
  end.

Definition schedule (block : list Z) : list Z := extend 48 (words_of_block block).

Record regs := Regs { ra : Z; rb : Z; rc : Z; rd : Z; re : Z; rf : Z; rg : Z; rh : Z }.

Definition round (r : regs) (kw : Z * Z) : regs :=
  let t1 := add32 (add32 (add32 (add32 (rh r) (Sigma1 (re r)))
                                (Ch (re r) (rf r) (rg r))) (fst kw)) (snd kw) in
  let t2 := add32 (Sigma0 (ra r)) (Maj (ra r) (rb r) (rc r)) in
  Regs (add32 t1 t2) (ra r) (rb r) (rc r) (add32 (rd r) t1) (re r) (rf r) (rg r).

Definition compress (h : regs) (block : list Z) : regs :=
  let r := fold_left round (combine K (schedule block)) h in
  Regs (add32 (ra h) (ra r)) (add32 (rb h) (rb r)) (add32 (rc h) (rc r))
       (add32 (rd h) (rd r)) (add32 (re h) (re r)) (add32 (rf h) (rf r))
       (add32 (rg h) (rg r)) (add32 (rh h) (rh r)).

Definition init : regs :=
  Regs (nth 0 H0 0) (nth 1 H0 0) (nth 2 H0 0) (nth 3 H0 0)
       (nth 4 H0 0) (nth 5 H0 0) (nth 6 H0 0) (nth 7 H0 0).

Definition output (r : regs) : list Z :=
  be_bytes 4 (ra r) ++ be_bytes 4 (rb r) ++ be_bytes 4 (rc r) ++ be_bytes 4 (rd r)
  ++ be_bytes 4 (re r) ++ be_bytes 4 (rf r) ++ be_bytes 4 (rg r) ++ be_bytes 4 (rh r).

(** [hashlib.sha256(data).digest()], as a list of 32 octets. *)
Definition digest (data : pybytes) : list Z :=
  let padded := pad (map ord data) in
  output (fold_left compress (chunks_of (length padded) 64 padded) init).

(** One lowercase hexadecimal digit. *)
Definition hexdigit (n : Z) : ascii :=
  if n <? 10 then chr (48 + n) else chr (87 + n).

Definition hex (bs : list Z) : pystr :=
  flat_map (fun b => [hexdigit (b / 16); hexdigit (b mod 16)]) bs.

(** [hashlib.sha256(data).hexdigest()]. *)
Definition hexdigest (data : pybytes) : pystr := hex (digest data).

End SHA256.

(** ** The fragment of [re] used by the e-mail pattern

    The pattern is a sequence of pieces; a piece is a character set with a
    greedy repetition [{min,max}] ([+] is [{1,}], a plain character is
    [{1,1}]).  [match_here] is the backtracking matcher of [re] on that
    fragment: a piece first takes as many characters as it can and gives
    them back one at a time while the rest of the pattern fails. *)

Module Re.

Inductive setitem :=
| Range (lo hi : ascii)
| Char (c : ascii).

Definition charset := list setitem.

Definition in_item (c : ascii) (i : setitem) : bool :=
  match i with
  | Range lo hi => (ord lo <=? ord c) && (ord c <=? ord hi)
  | Char d => bool_decide (c = d)
  end.

Definition in_set (cs : charset) (c : ascii) : bool := existsb (in_item c) cs.

Record piece := Piece { p_set : charset; p_min : nat; p_max : option nat }.

Definition regex := list piece.

(** Length of the longest prefix of [s] inside the set. *)
Fixpoint run (cs : charset) (s : pystr) : nat :=
  match s with
  | c :: s' => if in_set cs c then S (run cs s') else O
  | [] => O
  end.

Definition cap (max : option nat) (n : nat) : nat :=
  match max with
  | Some m => Nat.min m n
  | None => n
  end.

(** Try the continuation [k] after [n], [n - 1], ..., [lo] characters. *)
Fixpoint backtrack (k : pystr -> option nat) (s : pystr) (lo n : nat) : option nat :=
  if (n <? lo)%nat then None
  else
    match k (drop n s) with
    | Some m => Some (n + m)%nat
    | None =>
        match n with
        | O => None
        | S n' => backtrack k s lo n'
        end
    end.

(** [pattern.match(s)]: the length of the match at the start of [s]. *)
Fixpoint match_here (r : regex) (s : pystr) : option nat :=
  match r with
  | [] => Some O
  | p :: r' =>
      backtrack (match_here r') s (p_min p) (cap (p_max p) (run (p_set p) s))
  end.

(** The left-to-right scan of [findall]: [skip] characters still belong to
    the previous match; otherwise a match is tried at the current
    position, and the scan resumes at its end. *)
Fixpoint scan (r : regex) (skip : nat) (s : pystr) : list pystr :=
  match s with
  | [] =>
      match skip, match_here r [] with
      | O, Some _ => [[]]
      | _, _ => []
      end
  | _ :: s' =>
      match skip with
      | S k => scan r k s'
      | O =>
          match match_here r s with
          | Some n => take n s :: scan r (Nat.pred n) s'
          | None => scan r O s'
          end
      end
  end.

(** [re.findall(pattern, text)] for a pattern without groups. *)
Definition findall (r : regex) (text : pystr) : list pystr := scan r O text.

(** The language of a pattern, independently of any matching strategy. *)
Definition within (max : option nat) (n : nat) : Prop :=
  match max with
  | Some m => (n <= m)%nat
  | None => True
  end.

Inductive matches : regex -> pystr -> Prop :=
| matches_nil : matches [] []
| matches_cons p r x y :
    Forall (fun c => in_set (p_set p) c = true) x ->
    (p_min p <= length x)%nat ->
    within (p_max p) (length x) ->
    matches r y ->
    matches (p :: r) (x ++ y).

(** The least length of a string of the language. *)
Definition min_length (r : regex) : nat := foldr (fun p n => (p_min p + n)%nat) O r.

End Re.

(** [s] occurs in [t] as a contiguous substring. *)
Definition substring (s t : pystr) : Prop := exists u v, t = u ++ s ++ v.

(** [[a-zA-Z0-9._-]] *)
Definition name_chars : Re.charset :=
  [Re.Range "a" "z"; Re.Range "A" "Z"; Re.Range "0" "9";
   Re.Char "."; Re.Char "_"; Re.Char "-"]%char.

(** [[a-zA-Z0-9_-]] *)
Definition label_chars : Re.charset :=
  [Re.Range "a" "z"; Re.Range "A" "Z"; Re.Range "0" "9";
   Re.Char "_"; Re.Char "-"]%char.

(** [re.compile('[a-zA-Z0-9._-]+@[a-zA-Z0-9._-]+\.[a-zA-Z0-9_-]{2,}')] *)
Definition email_pattern : Re.regex :=
  [ Re.Piece name_chars 1 None;
    Re.Piece [Re.Char "@"%char] 1 (Some 1%nat);
    Re.Piece name_chars 1 None;
    Re.Piece [Re.Char "."%char] 1 (Some 1%nat);
    Re.Piece label_chars 2 None ].

(** ** The environment and the application state *)

(** A file of the file system, with the permissions of the running user. *)
Record file := File { f_readable : bool; f_writable : bool; f_data : pybytes }.

(** The exceptions the methods meet: the two that [open] raises, and
    whatever the pandas reader raises. *)
Inductive exn :=
| FileNotFoundError (path : pystr)
| PermissionError (path : pystr)
| ReaderError (msg : pystr).

(** The pieces of an f-string: text, [str(e)] of an exception, a number. *)
Inductive frag :=
| Txt (s : pystr)
| Exc (e : exn)
| Num (n : nat).

Definition message := list frag.

Inductive level := INFO | WARNING | ERROR.

(** A call of [tkinter.messagebox]. *)
Inductive box :=
| showinfo (title : pystr) (msg : message)
| showerror (title : pystr) (msg : message).

(** What the methods of [EmailFinderApp] read and write: the file system,
    the attribute [self.emails], the widgets they configure, the message
    boxes shown and the records logged (oldest first), and the worker threads
    started, each with the argument of its [find_emails]. *)
Record state := State {
  fs : gmap pystr file;
  emails : list pystr;
  result_text : pystr;
  status_label : message;
  progress : bool;
  boxes : list box;
  log : list (level * message);
  threads : list pystr
}.

Definition set_fs (v : gmap pystr file) (s : state) : state :=
  State v (emails s) (result_text s) (status_label s) (progress s) (boxes s) (log s) (threads s).
Definition set_emails (v : list pystr) (s : state) : state :=
  State (fs s) v (result_text s) (status_label s) (progress s) (boxes s) (log s) (threads s).
Definition set_result_text (v : pystr) (s : state) : state :=
  State (fs s) (emails s) v (status_label s) (progress s) (boxes s) (log s) (threads s).
Definition set_status_label (v : message) (s : state) : state :=
  State (fs s) (emails s) (result_text s) v (progress s) (boxes s) (log s) (threads s).
Definition set_progress (v : bool) (s : state) : state :=
  State (fs s) (emails s) (result_text s) (status_label s) v (boxes s) (log s) (threads s).
Definition set_boxes (v : list box) (s : state) : state :=
  State (fs s) (emails s) (result_text s) (status_label s) (progress s) v (log s) (threads s).
Definition set_log (v : list (level * message)) (s : state) : state :=
  State (fs s) (emails s) (result_text s) (status_label s) (progress s) (boxes s) v (threads s).
Definition set_threads (v : list pystr) (s : state) : state :=
  State (fs s) (emails s) (result_text s) (status_label s) (progress s) (boxes s) (log s) v.

(** ** A state-and-exception monad for the methods *)

Definition M (A : Type) : Type := state -> (exn + A) * state.

Definition ret {A} (a : A) : M A := fun s => (inr a, s).

Definition bind {A B} (m : M A) (k : A -> M B) : M B :=
  fun s =>
    match m s with
    | (inr a, s') => k a s'
    | (inl e, s') => (inl e, s')
    end.

Declare Scope py_scope.
Notation "'do' x <- m ; k" := (bind m (fun x => k))
  (at level 10, x name, m at level 100, k at level 200) : py_scope.
Notation "m ;; k" := (bind m (fun _ => k))
  (at level 100, k at level 200, right associativity) : py_scope.
Local Open Scope py_scope.

Definition raise {A} (e : exn) : M A := fun s => (inl e, s).
Definition get : M state := fun s => (inr s, s).
Definition modify (f : state -> state) : M unit := fun s => (inr tt, f s).

(** [try: body except Exception as e: handler e] *)
Definition try_except {A} (body : M A) (handler : exn -> M A) : M A :=
  fun s =>
    match body s with
    | (inl e, s') => handler e s'
    | (inr a, s') => (inr a, s')
    end.

(** [try: body finally: final] *)
Definition try_finally {A} (body : M A) (final : M unit) : M A :=
  fun s =>
    match body s with
    | (r, s') =>
        match final s' with
        | (inl e, s'') => (inl e, s'')
        | (inr _, s'') => (r, s'')
        end
    end.

(** [for x in xs: body x] *)
Fixpoint for_each {A} (xs : list A) (body : A -> M unit) : M unit :=
  match xs with
  | [] => ret tt
  | x :: xs' => body x ;; for_each xs' body
  end.

(** *** Files *)

(** [open(path, 'rb').read()] *)
Definition read_binary (path : pystr) : M pybytes :=
  do s <- get;
  match fs s !! path with
  | None => raise (FileNotFoundError path)
  | Some f => if f_readable f then ret (f_data f) else raise (PermissionError path)
  end.

(** [open(path, 'r').read()] *)
Definition read_text (path : pystr) : M pystr :=
  do b <- read_binary path;
  ret (universal_newlines b).

(** [open(path, 'w')]: the file is created, or truncated when it exists. *)
Definition open_write (path : pystr) : M unit :=
  do s <- get;
  match fs s !! path with
  | None => modify (set_fs (<[path := File true true []]> (fs s)))
  | Some f =>
      if f_writable f
      then modify (set_fs (<[path := File (f_readable f) true []]> (fs s)))
      else raise (PermissionError path)
  end.

(** [f.write(data)] on the file opened at [path]. *)
Definition write (path : pystr) (data : pystr) : M unit :=
  modify (fun s =>
    set_fs (alter (fun f => File (f_readable f) (f_writable f) (f_data f ++ data)) path (fs s)) s).

(** [os.path.exists(path)] *)
Definition path_exists (path : pystr) : M bool :=
  do s <- get;
  ret (bool_decide (is_Some (fs s !! path))).

(** *** Logging and widgets *)

Definition logging (l : level) (msg : message) : M unit :=
  modify (fun s => set_log (log s ++ [(l, msg)]) s).

Definition messagebox (b : box) : M unit :=
  modify (fun s => set_boxes (boxes s ++ [b]) s).

Definition thread_start (arg : pystr) : M unit :=
  modify (fun s => set_threads (threads s ++ [arg]) s).

(** Truth value of a Python string or list: non-empty. *)
Definition truthy {A} (l : list A) : bool :=
  match l with
  | [] => false
  | _ => true
  end.

(** ** The methods of [EmailFinderApp]

    A method that opens a file dialog takes the dialog's answer as its
    argument: the chosen path, or the empty string when the user cancels. *)

(** [verify_hash(self, file_path, hash_file_path)] *)
Definition verify_hash (file_path hash_file_path : pystr) : M bool :=
  do data <- read_binary file_path;
  let file_hash := SHA256.hexdigest data in
  do content <- read_text hash_file_path;
  let saved_hash := strip content in
  if decide (file_hash = saved_hash) then
    logging INFO [Txt (lit "Hash verification successful for file: " ++ file_path)] ;;
    ret true
  else
    logging WARNING [Txt (lit "Hash verification failed for file: " ++ file_path)] ;;
    ret false.

(** [generate_hash(self)] *)
Definition generate_hash (file_path : pystr) : M unit :=
  if truthy file_path then
    let hash_file_path := file_path ++ lit ".sha256" in
    do data <- read_binary file_path;
    let file_hash := SHA256.hexdigest data in
    open_write hash_file_path ;;
    write hash_file_path (lit "Hash sha256 for file: " ++ file_path ++ [LF]) ;;
    write hash_file_path file_hash ;;
    messagebox (showinfo (lit "Hash Generated")
                  [Txt (lit "Hash file saved as " ++ hash_file_path)]) ;;
    logging INFO [Txt (lit "Hash generated for file: " ++ file_path
                       ++ lit " and saved as " ++ hash_file_path)]
  else ret tt.

(** [open_file(self)].  The worker thread is recorded in [threads]; it is
    the only place where [find_emails] is started. *)
Definition open_file (file_path : pystr) : M unit :=
  if truthy file_path then
    let hash_file_path := file_path ++ lit ".sha256" in
    do present <- path_exists hash_file_path;
    do mismatch <-
      (if present
       then do ok <- verify_hash file_path hash_file_path; ret (negb ok)
       else ret false);
    if mismatch then
      messagebox (showerror (lit "Hash Mismatch")
        [Txt (lit "The file hash does not match the saved hash. The file may have been tampered with.")]) ;;
      logging WARNING [Txt (lit "Hash mismatch for file: " ++ file_path)]
    else
      modify (set_progress true) ;;
      modify (set_status_label [Txt (lit "Status: Processing file...")]) ;;
      thread_start file_path ;;
      logging INFO [Txt (lit "Processing started for file: " ++ file_path)]
  else ret tt.

(** [save_results(self)]; [file_path] is the answer of the save dialog, which
    is only asked when there is something to save. *)
Definition save_results (file_path : pystr) : M unit :=
  do s <- get;
  if negb (truthy (emails s)) then
    messagebox (showinfo (lit "No Results") [Txt (lit "No emails to save.")]) ;;
    logging INFO [Txt (lit "No emails to save.")]
  else if truthy file_path then
    try_except
      (open_write file_path ;;
       write file_path (join [LF] (emails s)) ;;
       messagebox (showinfo (lit "Saved") [Txt (lit "Results saved to " ++ file_path)]) ;;
       logging INFO [Txt (lit "Results saved to file: " ++ file_path)])
      (fun e =>
         messagebox (showerror (lit "Error") [Txt (lit "Could not save the file: "); Exc e]) ;;
         logging ERROR [Txt (lit "Error saving file: " ++ file_path ++ lit ", Error: "); Exc e])
  else ret tt.

(** What the pandas reader does with the bytes of a file: either
    [pd.read_csv] raises, or it returns a reader, described by the texts
    [chunk.to_string(index=False)] of the chunks it yields and by the
    exception, if any, that ends the iteration. *)
Definition reader : Type := pybytes -> exn + (list pystr * option exn).

Section Extraction.

(** [pd.read_csv(file_path, dtype=str, chunksize=1000, on_bad_lines='warn')]
    followed by [to_string(index=False)] on every chunk. *)
Variable pandas : reader.

(** The order in which a Python [set] of strings is iterated. *)
Variable set_order : list pystr -> list pystr.

(** [list(set(l))] *)
Definition list_set (l : list pystr) : list pystr := set_order (remove_dups l).

Definition read_csv (file_path : pystr) : M (list pystr * option exn) :=
  do data <- read_binary file_path;
  match pandas data with
  | inl e => raise e
  | inr df => ret df
  end.

(** [for chunk in df: body(chunk.to_string(index=False))] *)
Definition for_chunks (df : list pystr * option exn) (body : pystr -> M unit) : M unit :=
  for_each (fst df) body ;;
  match snd df with
  | Some e => raise e
  | None => ret tt
  end.

(** [find_emails(self, file_path)] *)
Definition find_emails (file_path : pystr) : M unit :=
  try_finally
    (try_except
       (do df <- read_csv file_path;
        logging WARNING [Txt (lit "File read: " ++ file_path)] ;;
        modify (set_emails []) ;;
        for_chunks df (fun text_data =>
          modify (fun s => set_emails (emails s ++ Re.findall email_pattern text_data) s)) ;;
        modify (fun s => set_emails (list_set (emails s)) s) ;;
        modify (fun s => set_result_text (join [LF] (emails s)) s) ;;
        do s <- get;
        modify (set_status_label
          [Txt (lit "Status: Found "); Num (length (emails s)); Txt (lit " email addresses.")]) ;;
        messagebox (showinfo (lit "Results")
          [Txt (lit "Found "); Num (length (emails s)); Txt (lit " email addresses.")]) ;;
        logging INFO
          [Txt (lit "Found "); Num (length (emails s));
           Txt (lit " email addresses in file: " ++ file_path)])
       (fun e =>
          modify (set_status_label [Txt (lit "Status: Error occurred")]) ;;
          messagebox (showerror (lit "Error") [Txt (lit "An error occurred: "); Exc e]) ;;
          logging ERROR
            [Txt (lit "Error processing file: " ++ file_path ++ lit ", Error: "); Exc e]))
    (modify (set_progress false)).

End Extraction.

(** ** Outcomes of the methods

    The states the methods end in, named so that the theorems can refer to
    them. *)

Definition header : pystr := lit "Hash sha256 for file: ".

(** The content [generate_hash] writes for the file [f] chosen at [p]. *)
Definition written_sidecar (p : pystr) (f : file) : pystr :=
  header ++ p ++ [LF] ++ SHA256.hexdigest (f_data f).

(** Whether a file can be read once [open(..., 'w')] succeeded on it: a file
    that did not exist is created readable, an existing one keeps its mode. *)
Definition readable_after_write (o : option file) : bool :=
  match o with
  | None => true
  | Some g => f_readable g
  end.

(** The state after a successful [generate_hash]. *)
Definition generated (p : pystr) (f : file) (r : bool) (s : state) : state :=
  let h := p ++ lit ".sha256" in
  set_log (log s ++ [(INFO, [Txt (lit "Hash generated for file: " ++ p
                                   ++ lit " and saved as " ++ h)])])
    (set_boxes (boxes s ++ [showinfo (lit "Hash Generated") [Txt (lit "Hash file saved as " ++ h)]])
       (set_fs (<[h := File r true (written_sidecar p f)]> (fs s)) s)).

(** The record [verify_hash] logs for its result. *)
Definition verify_record (p : pystr) (ok : bool) : level * message :=
  if ok then (INFO, [Txt (lit "Hash verification successful for file: " ++ p)])
  else (WARNING, [Txt (lit "Hash verification failed for file: " ++ p)]).

(** The matches of all chunks, in the order found. *)
Definition found (texts : list pystr) : list pystr :=
  flat_map (Re.findall email_pattern) texts.

(** The state after [logging.warn] has recorded that the file was read. *)
Definition file_read (file_path : pystr) (s : state) : state :=
  set_log (log s ++ [(WARNING, [Txt (lit "File read: " ++ file_path)])]) s.

(** The [except] branch of [find_emails] followed by its [finally] branch. *)
Definition error_state (file_path : pystr) (e : exn) (s : state) : state :=
  set_progress false
    (set_log (log s ++ [(ERROR, [Txt (lit "Error processing file: " ++ file_path
                                      ++ lit ", Error: "); Exc e])])
       (set_boxes (boxes s ++ [showerror (lit "Error") [Txt (lit "An error occurred: "); Exc e]])
          (set_status_label [Txt (lit "Status: Error occurred")] s))).

(** The end of the [try] branch of [find_emails] followed by its [finally]
    branch, [result] being the value of [list(set(self.emails))]. *)
Definition success_state (file_path : pystr) (result : list pystr) (s : state) : state :=
  let n := length result in
  set_progress false
    (set_log (log s ++ [(INFO, [Txt (lit "Found "); Num n;
                                Txt (lit " email addresses in file: " ++ file_path)])])
       (set_boxes (boxes s ++ [showinfo (lit "Results")
                                 [Txt (lit "Found "); Num n; Txt (lit " email addresses.")]])
          (set_status_label [Txt (lit "Status: Found "); Num n; Txt (lit " email addresses.")]
             (set_result_text (join [LF] result) (set_emails result s))))).

(** The exception that ends a run, if any. *)
Definition failure_of (r : exn + (list pystr * option exn)) : option exn :=
  match r with
  | inl e => Some e
  | inr (_, tail) => tail
  end.

(** The value of [self.emails] after a failing run that started from [old]. *)
Definition stored_after_failure (r : exn + (list pystr * option exn)) (old : list pystr)
  : list pystr :=
  match r with
  | inl _ => old
  | inr (texts, _) => found texts
  end.

(** ** The rest of the application *)

(** [__init__(self, root)]: the attributes of a fresh application over the
    files of the machine: no result, an empty text widget, the status
    "Status: Ready", an idle progress bar, nothing shown or logged yet. *)
Definition init (files : gmap pystr file) : state :=
  State files [] [] [Txt (lit "Status: Ready")] false [] [] [].




(** Whether [open(p)] succeeds for reading, and the exception it raises
    otherwise. *)
Definition readable_at (s : state) (p : pystr) : bool :=
  match fs s !! p with
  | Some f => f_readable f
  | None => false
  end.


Definition open_error (s : state) (p : pystr) : exn :=
  match fs s !! p with
  | None => FileNotFoundError p
  | Some _ => PermissionError p
  end.

(** The state after [open_file] has started the worker for [p]. *)
Definition started (p : pystr) (s : state) : state :=
  set_log (log s ++ [(INFO, [Txt (lit "Processing started for file: " ++ p)])])
    (set_threads (threads s ++ [p])
       (set_status_label [Txt (lit "Status: Processing file...")]
          (set_progress true s))).

(** The state after [open_file] has reported a mismatch for [p]. *)
Definition mismatch_reported (p : pystr) (s : state) : state :=
  set_log (log s ++ [(WARNING, [Txt (lit "Hash mismatch for file: " ++ p)])])
    (set_boxes (boxes s ++
       [showerror (lit "Hash Mismatch")
          [Txt (lit "The file hash does not match the saved hash. The file may have been tampered with.")]])
       s).

(** The state after [save_results] has written the result to [p]. *)
Definition saved (p : pystr) (r : bool) (s : state) : state :=
  set_log (log s ++ [(INFO, [Txt (lit "Results saved to file: " ++ p)])])
    (set_boxes (boxes s ++ [showinfo (lit "Saved") [Txt (lit "Results saved to " ++ p)]])
       (set_fs (<[p := File r true (join [LF] (emails s))]> (fs s)) s)).

(** The state after [save_results] has caught the exception [e]. *)
Definition save_failed (p : pystr) (e : exn) (s : state) : state :=
  set_log (log s ++ [(ERROR, [Txt (lit "Error saving file: " ++ p ++ lit ", Error: "); Exc e])])
    (set_boxes (boxes s ++
       [showerror (lit "Error") [Txt (lit "Could not save the file: "); Exc e]])
       s).

(** A text cut into gaps and matches in turn, and what follows the last
    match. *)
Fixpoint weave (gaps ms : list pystr) (tail : pystr) : pystr :=
  match gaps, ms with
  | g :: gaps', m :: ms' => g ++ m ++ weave gaps' ms' tail
  | _, _ => tail
  end.

(** The characters an address can be made of: those of [name_chars] and
    the at sign. *)
Definition email_char (c : ascii) : bool :=
  Re.in_set name_chars c || bool_decide (c = "@"%char).

(** The last piece of a pattern decides where a match stops. *)
Definition last_set r : Re.charset :=
  match last r with
  | Some p => Re.p_set p
  | None => []
  end.

Definition unbounded_end r : Prop :=
  match last r with
  | Some p => Re.p_max p = None
  | None => False
  end.

(** What follows a text does not start with a character of the set. *)
Definition stops (cs : Re.charset) (v : pystr) : Prop :=
  forall c, head v = Some c -> Re.in_set cs c = false.

Module Cases.

(** pandas on a file that holds no address. *)
Definition no_address : reader :=
  fun _ => inr ([lit "name" ++ [LF] ++ lit " Bob"], None).

End Cases.

(** ** The specification's vocabulary *)

(** The lines of a text, split at LF. *)
Fixpoint lines_from (cur : pystr) (s : pystr) : list pystr :=
  match s with
  | [] => [rev cur]
  | c :: s' => if decide (c = LF) then rev cur :: lines_from [] s' else lines_from (c :: cur) s'
  end.

Definition lines (s : pystr) : list pystr := lines_from [] s.

(** The specification's [verifyDigest]: the digest of the file against
    the second line of the sidecar, trimmed. *)
Definition spec_verifyDigest (data : pybytes) (sidecar : pystr) : bool :=
  bool_decide (Some (SHA256.hexdigest data) = strip <$> (lines sidecar !! 1%nat)).

(** The sidecar format of the specification: header line, digest line, each
    terminated by LF. *)
Definition spec_sidecar (file_path : pystr) (data : pybytes) : pystr :=
  lit "Hash sha256 for file: " ++ file_path ++ [LF] ++ SHA256.hexdigest data ++ [LF].

Definition lower_hex (c : ascii) : bool :=
  ((48 <=? ord c) && (ord c <=? 57)) || ((97 <=? ord c) && (ord c <=? 102)).

(** ** Sample environments *)

Module Sample.

Definition plain (data : pybytes) : file := File true true data.

Definition csv : pystr := lit "data.csv".
Definition sidecar : pystr := lit "data.csv.sha256".
Definition csv_data : pybytes := lit "email" ++ [LF] ++ lit "ab@cd.ef" ++ [LF].

Definition empty_state (files : gmap pystr file) : state :=
  State files [] [] [Txt (lit "Status: Ready")] false [] [] [].

Definition disk : gmap pystr file := {[ csv := plain csv_data ]}.

(** pandas on [csv_data]: one column [email], one row; printed without the
    index the frame is the header and the row, right-aligned. *)
Definition one_chunk : reader :=
  fun _ => inr ([lit "   email" ++ [LF] ++ lit "ab@cd.ef"], None).

(** A reader that yields one chunk and then fails on the next. *)
Definition failing_after_one : reader :=
  fun _ => inr ([lit "   email" ++ [LF] ++ lit "ab@cd.ef"],
                Some (ReaderError (lit "Error tokenizing data. C error: EOF inside string"))).

Definition insertion_order : list pystr -> list pystr := fun l => l.

(** A file whose name contains a line feed, as POSIX allows. *)
Definition odd_csv : pystr := lit "a" ++ [LF] ++ lit "b.csv".
Definition odd_disk : gmap pystr file := {[ odd_csv := plain csv_data ]}.

(** pandas on a file with the same address in two rows. *)
Definition twice : reader :=
  fun _ => inr ([lit "            email" ++ [LF] ++ lit "alice@example.com" ++ [LF]
                 ++ lit "alice@example.com"], None).

(** A session that already holds a result. *)
Definition with_result (files : gmap pystr file) : state :=
  set_emails [lit "old@x.yz"] (Sample.empty_state files).

End Sample.

(** ** Test vectors

    The models of the two library functions agree with the libraries on
    these inputs (FIPS 180-4 vectors and block-boundary lengths for
    [hashlib]; results of [re.findall] for the pattern). *)

Example sha256_empty :
  SHA256.hexdigest [] =
  lit "e3b0c44298fc1c149afbf4c8996fb92427ae41e4649b934ca495991b7852b855".
Proof. vm_compute. reflexivity. Qed.

Example sha256_abc :
  SHA256.hexdigest (lit "abc") =
  lit "ba7816bf8f01cfea414140de5dae2223b00361a396177a9cb410ff61f20015ad".
Proof. vm_compute. reflexivity. Qed.

Example sha256_two_blocks :
  SHA256.hexdigest (lit "abcdbcdecdefdefgefghfghighijhijkijkljklmklmnlmnomnopnopq") =
  lit "248d6a61d20638b8e5c026930c3e6039a33ce45964ff2167f6ecedd419db06c1".
Proof. vm_compute. reflexivity. Qed.

Example sha256_55_a :
  SHA256.hexdigest (repeat (ascii_of_nat 97) 55) =
  lit "9f4390f8d30c2dd92ec9f095b65e2b9ae9b0a925a5258e241c9f1e910f734318".
Proof. vm_compute. reflexivity. Qed.

Example sha256_56_a :
  SHA256.hexdigest (repeat (ascii_of_nat 97) 56) =
  lit "b35439a4ac6f0948b6d6f9e3c6af0f5f590ce20f1bde7090ef7970686ec6738a".
Proof. vm_compute. reflexivity. Qed.

Example sha256_64_a :
  SHA256.hexdigest (repeat (ascii_of_nat 97) 64) =
  lit "ffe054fe7ae0cb6dc65c3af9b61d5209f439851db43d0ba5997337df154668eb".
Proof. vm_compute. reflexivity. Qed.

Example findall_plain :
  Re.findall email_pattern (lit "   email" ++ [LF] ++ lit "ab@cd.ef") = [lit "ab@cd.ef"].
Proof. vm_compute. reflexivity. Qed.

Example findall_backtracks :
  Re.findall email_pattern (lit "a@b.c.d.ee.f x@y.zz..") = [lit "a@b.c.d.ee"; lit "x@y.zz"].
Proof. vm_compute. reflexivity. Qed.

Example findall_second_at :
  Re.findall email_pattern (lit "a@b@c.de") = [lit "b@c.de"].
Proof. vm_compute. reflexivity. Qed.

Example findall_no_overlap :
  Re.findall email_pattern (lit "aa@bb.cc.dd@ee.ff") = [lit "aa@bb.cc.dd"].
Proof. vm_compute. reflexivity. Qed.

Example findall_short_label :
  Re.findall email_pattern (lit "@a.bc a@.bc a@b.c a@b..cd") = [lit "a@b..cd"].
Proof. vm_compute. reflexivity. Qed.

(** Scenario 1 of the specification, on the frame as pandas prints it. *)
Example findall_scenario_1 :
  Re.findall email_pattern
    (lit " name              email" ++ [LF] ++ lit "Alice  alice@example.com" ++ [LF]
     ++ lit "  Bob bob@example.co.uk")
  = [lit "alice@example.com"; lit "bob@example.co.uk"].
Proof. vm_compute. reflexivity. Qed.

(** Scenario 3: no [@], no match. *)
Example findall_scenario_3 :
  Re.findall email_pattern (lit "name" ++ [LF] ++ lit " Bob" ++ [LF] ++ lit "a.b-c_d.ee") = [].
Proof. vm_compute. reflexivity. Qed.

(** Proves that a string, written as the concatenation of the parts the
    pieces of a pattern take, is in the language of the pattern. *)
Ltac in_language :=
  repeat (apply Re.matches_cons; [repeat constructor | vm_compute; lia | vm_compute; try lia; done |]);
  apply Re.matches_nil.

Example language_example :
  Re.matches email_pattern (lit "a.b" ++ lit "@" ++ lit "c-d" ++ lit "." ++ lit "e_f" ++ []).
Proof. in_language. Qed.

(** ** Facts about [str] operations *)

Section Strings.

Implicit Types (s w d : pystr) (c : ascii).

Lemma lstrip_spaces w s : Forall (fun c => isspace c = true) w -> lstrip (w ++ s) = lstrip s.
Proof. induction 1 as [|c w Hc _ IH]; simpl; [done|]. by rewrite Hc. Qed.

Lemma lstrip_snoc s c : isspace c = false -> lstrip (s ++ [c]) = lstrip s ++ [c].
Proof.
  intros Hc. induction s as [|a s IH]; simpl.
  - by rewrite Hc.
  - destruct (isspace a); [exact IH | done].
Qed.

(** [rstrip] keeps a leading character that is not a space. *)
Lemma rstrip_cons_keep c s : isspace c = false -> rstrip (c :: s) = c :: rstrip s.
Proof.
  intros Hc. unfold rstrip. simpl. rewrite lstrip_snoc by done.
  by rewrite rev_app_distr.
Qed.

Lemma lstrip_all_space s : forallb isspace s = true -> lstrip s = [].
Proof.
  induction s as [|a s IH]; simpl; [done|].
  destruct (isspace a); simpl; [exact IH | done].
Qed.

Lemma lstrip_snoc_space s c :
  isspace c = true -> lstrip (s ++ [c]) = if forallb isspace s then [] else lstrip s ++ [c].
Proof.
  intros Hc. induction s as [|a s IH]; simpl.
  - by rewrite Hc.
  - destruct (isspace a); simpl; [exact IH | done].
Qed.

Lemma forallb_rev (P : ascii -> bool) s : forallb P (rev s) = forallb P s.
Proof.
  induction s as [|a s IH]; simpl; [done|].
  rewrite forallb_app, IH. simpl. destruct (P a), (forallb P s); done.
Qed.

(** The recursive reading of [rstrip]. *)
Lemma rstrip_cons c s :
  rstrip (c :: s) = if forallb isspace (c :: s) then [] else c :: rstrip s.
Proof.
  destruct (isspace c) eqn:Hc.
  - unfold rstrip. simpl. rewrite Hc, lstrip_snoc_space, forallb_rev by done. simpl.
    destruct (forallb isspace s); [done|]. by rewrite rev_app_distr.
  - rewrite rstrip_cons_keep by done. simpl. by rewrite Hc.
Qed.

Lemma rstrip_all_space s : forallb isspace s = true -> rstrip s = [].
Proof. intros H. unfold rstrip. by rewrite lstrip_all_space; [|rewrite forallb_rev]. Qed.

Lemma rstrip_app_keep d w :
  Forall (fun c => isspace c = false) d -> forallb isspace w = true -> rstrip (d ++ w) = d.
Proof.
  intros Hd Hw. induction Hd as [|c d Hc _ IH]; simpl.
  - by apply rstrip_all_space.
  - by rewrite rstrip_cons_keep, IH.
Qed.

Lemma forallb_of_Forall (P : ascii -> bool) s :
  Forall (fun c => P c = true) s -> forallb P s = true.
Proof. induction 1 as [|c s Hc _ IH]; simpl; [done|]. by rewrite Hc. Qed.

(** Whitespace around a text without spaces is removed, and only it. *)
Lemma strip_padded w1 d w2 :
  Forall (fun c => isspace c = true) w1 -> Forall (fun c => isspace c = false) d ->
  Forall (fun c => isspace c = true) w2 -> strip (w1 ++ d ++ w2) = d.
Proof.
  intros H1 Hd H2. unfold strip. rewrite lstrip_spaces by done.
  assert (Hw2 : forallb isspace w2 = true) by (by apply forallb_of_Forall).
  destruct Hd as [|c d Hc Hd]; simpl.
  - rewrite lstrip_all_space by done. done.
  - rewrite Hc. change (c :: d ++ w2) with ((c :: d) ++ w2).
    apply rstrip_app_keep; [by constructor | done].
Qed.

(** A text that starts with a character that is no space keeps it. *)
Lemma strip_head c s : isspace c = false -> exists r, strip (c :: s) = c :: r.
Proof.
  intros Hc. unfold strip. simpl. rewrite Hc, rstrip_cons_keep by done. eauto.
Qed.

End Strings.

Section Newlines.

Implicit Types (s : pystr) (c : ascii).

Lemma isspace_CR : isspace CR = true.
Proof. reflexivity. Qed.

Lemma isspace_LF : isspace LF = true.
Proof. reflexivity. Qed.

(** One step of the translation, as a case analysis. *)
Lemma universal_newlines_cons c s :
  universal_newlines (c :: s) =
    if decide (c = CR) then
      LF :: universal_newlines (match s with c' :: s' => if decide (c' = LF) then s' else s | [] => [] end)
    else c :: universal_newlines s.
Proof.
  simpl. destruct (decide (c = CR)); [|done].
  destruct s as [|c' s']; [done|]. by destruct (decide (c' = LF)).
Qed.

Lemma forallb_isspace_universal s :
  forallb isspace (universal_newlines s) = forallb isspace s.
Proof.
  induction s as [s IH] using (induction_ltof1 _ (@length ascii)). unfold ltof in IH.
  destruct s as [|c s]; [done|]. rewrite universal_newlines_cons.
  destruct (decide (c = CR)) as [->|Hc].
  - destruct s as [|c' s']; [done|].
    destruct (decide (c' = LF)) as [->|Hc'].
    + cbn [forallb]. rewrite isspace_CR, isspace_LF. rewrite IH by (simpl; lia). done.
    + cbn [forallb]. rewrite isspace_CR, isspace_LF.
      rewrite IH by (simpl; lia). done.
  - cbn [forallb]. by rewrite IH by (simpl; lia).
Qed.

Lemma lstrip_universal s : lstrip (universal_newlines s) = universal_newlines (lstrip s).
Proof.
  induction s as [s IH] using (induction_ltof1 _ (@length ascii)). unfold ltof in IH.
  destruct s as [|c s]; [done|]. rewrite universal_newlines_cons.
  destruct (decide (c = CR)) as [->|Hc].
  - cbn [lstrip]. rewrite isspace_CR, isspace_LF.
    destruct s as [|c' s']; [done|].
    destruct (decide (c' = LF)) as [->|Hc'].
    + cbn [lstrip]. rewrite isspace_LF. apply IH. simpl; lia.
    + apply IH. simpl; lia.
  - cbn [lstrip]. destruct (isspace c).
    + apply IH. simpl; lia.
    + rewrite universal_newlines_cons. by destruct (decide (c = CR)).
Qed.

Lemma rstrip_universal s : rstrip (universal_newlines s) = universal_newlines (rstrip s).
Proof.
  induction s as [s IH] using (induction_ltof1 _ (@length ascii)). unfold ltof in IH.
  destruct s as [|c s]; [done|]. rewrite universal_newlines_cons.
  destruct (decide (c = CR)) as [->|Hc].
  - destruct s as [|c' s']; [done|].
    destruct (decide (c' = LF)) as [->|Hc'].
    + rewrite !rstrip_cons. cbn [forallb].
      rewrite isspace_CR, isspace_LF, forallb_isspace_universal. simpl.
      destruct (forallb isspace s'); [done|].
      rewrite universal_newlines_cons. rewrite decide_True by done.
      rewrite decide_True by done. f_equal. apply IH. simpl; lia.
    + rewrite (rstrip_cons LF), (rstrip_cons CR).
      change (forallb isspace (CR :: c' :: s')) with (forallb isspace (c' :: s')).
      change (forallb isspace (LF :: universal_newlines (c' :: s')))
        with (forallb isspace (universal_newlines (c' :: s'))).
      rewrite forallb_isspace_universal.
      destruct (forallb isspace (c' :: s')) eqn:Hsp; [done|].
      rewrite IH by (simpl; lia). rewrite (rstrip_cons c'), Hsp.
      rewrite (universal_newlines_cons CR). rewrite decide_True by done.
      by rewrite decide_False by done.
  - rewrite !rstrip_cons. cbn [forallb]. rewrite forallb_isspace_universal.
    destruct (isspace c && forallb isspace s); [done|].
    rewrite universal_newlines_cons, decide_False by done. f_equal.
    apply IH. simpl; lia.
Qed.

(** Stripping commutes with the newline translation of text mode. *)
Lemma strip_universal s : strip (universal_newlines s) = universal_newlines (strip s).
Proof. unfold strip. by rewrite lstrip_universal, rstrip_universal. Qed.

Lemma universal_newlines_id s : CR ∉ s -> universal_newlines s = s.
Proof.
  induction s as [|c s IH]; [done|]. intros Hn.
  apply not_elem_of_cons in Hn as [Hc Hs]. simpl.
  rewrite decide_False by done. by rewrite IH.
Qed.



End Newlines.

Section Hex.

Lemma hexdigit_lower n : 0 <= n < 16 -> lower_hex (SHA256.hexdigit n) = true.
Proof.
  intros H.
  assert (Hn : n ∈ [0;1;2;3;4;5;6;7;8;9;10;11;12;13;14;15]).
  { rewrite !elem_of_cons. lia. }
  rewrite !elem_of_cons, elem_of_nil in Hn.
  repeat (destruct Hn as [->|Hn]; [reflexivity|]). done.
Qed.

Lemma hex_lower bs : Forall (fun b => 0 <= b < 256) bs -> Forall (fun c => lower_hex c = true) (SHA256.hex bs).
Proof.
  induction 1 as [|b bs Hb _ IH]; [constructor|].
  unfold SHA256.hex. simpl. constructor; [|constructor; [|exact IH]].
  - apply hexdigit_lower. split; [apply Z.div_pos; lia | apply Z.div_lt_upper_bound; lia].
  - apply hexdigit_lower. apply Z.mod_pos_bound. lia.
Qed.

Lemma hex_length bs : length (SHA256.hex bs) = (2 * length bs)%nat.
Proof. induction bs as [|b bs IH]; [done|]. unfold SHA256.hex in *. simpl. rewrite IH. lia. Qed.

Lemma be_bytes_length n x : length (SHA256.be_bytes n x) = n.
Proof. revert x. induction n as [|n IH]; intros x; simpl; [done|]. rewrite length_app, IH. simpl. lia. Qed.

Lemma be_bytes_range n x : Forall (fun b => 0 <= b < 256) (SHA256.be_bytes n x).
Proof.
  revert x. induction n as [|n IH]; intros x; simpl; [constructor|].
  apply Forall_app. split; [apply IH|]. constructor; [|constructor].
  apply Z.mod_pos_bound. lia.
Qed.

Lemma digest_length data : length (SHA256.digest data) = 32%nat.
Proof. unfold SHA256.digest, SHA256.output. by rewrite !length_app, !be_bytes_length. Qed.

Lemma digest_range data : Forall (fun b => 0 <= b < 256) (SHA256.digest data).
Proof. unfold SHA256.digest, SHA256.output. rewrite !Forall_app. repeat split; apply be_bytes_range. Qed.

(** The digest is sixty-four lowercase hexadecimal digits. *)
Lemma hexdigest_length data : length (SHA256.hexdigest data) = 64%nat.
Proof. unfold SHA256.hexdigest. by rewrite hex_length, digest_length. Qed.

Lemma hexdigest_lower data : Forall (fun c => lower_hex c = true) (SHA256.hexdigest data).
Proof. apply hex_lower, digest_range. Qed.

Lemma lower_hex_ord c : lower_hex c = true -> 48 <= ord c <= 102.
Proof.
  unfold lower_hex. rewrite orb_true_iff, !andb_true_iff, !Z.leb_le. lia.
Qed.

Lemma lower_hex_not_space c : lower_hex c = true -> isspace c = false.
Proof.
  intros H%lower_hex_ord. unfold isspace. cbv zeta.
  rewrite !orb_false_iff, !andb_false_iff, !Z.leb_gt, !Z.eqb_neq. lia.
Qed.

Lemma hexdigest_no_space data : Forall (fun c => isspace c = false) (SHA256.hexdigest data).
Proof. eapply Forall_impl; [apply hexdigest_lower|]. apply lower_hex_not_space. Qed.

End Hex.

(** ** Facts about the matcher *)

Section Matcher.

Local Open Scope nat_scope.
Implicit Types (r : Re.regex) (p : Re.piece) (s x y : pystr).

Lemma run_le cs s : Re.run cs s <= length s.
Proof. induction s as [|c s IH]; simpl; [done|]. destruct (Re.in_set cs c); simpl; lia. Qed.

Lemma run_take cs s j :
  j <= Re.run cs s -> Forall (fun c => Re.in_set cs c = true) (take j s).
Proof.
  revert j. induction s as [|c s IH]; intros j Hj; [by rewrite take_nil|].
  destruct j as [|j]; [constructor|]. simpl in *.
  destruct (Re.in_set cs c) eqn:Hc; [|lia]. constructor; [done|]. apply IH. lia.
Qed.

Lemma run_app cs x s :
  Forall (fun c => Re.in_set cs c = true) x -> length x <= Re.run cs (x ++ s).
Proof. induction 1 as [|c x Hc _ IH]; simpl; [lia|]. rewrite Hc. lia. Qed.

Lemma cap_le max n : Re.cap max n <= n.
Proof. destruct max; simpl; lia. Qed.

Lemma cap_within max n j : j <= Re.cap max n -> Re.within max j.
Proof. destruct max; simpl; [lia|done]. Qed.

Lemma within_cap max n j : Re.within max j -> j <= n -> j <= Re.cap max n.
Proof. destruct max; simpl; lia. Qed.

Lemma backtrack_sound k s lo n t :
  Re.backtrack k s lo n = Some t ->
  exists j m, lo <= j <= n /\ k (drop j s) = Some m /\ t = j + m.
Proof.
  induction n as [|n IH]; simpl.
  - destruct (0 <? lo) eqn:Hlo; [done|]. apply Nat.ltb_ge in Hlo.
    destruct (k (drop 0 s)) as [m|] eqn:Hk; [|done].
    intros [= <-]. exists 0, m. repeat split; [lia..|done].
  - destruct (S n <? lo) eqn:Hlo; [done|]. apply Nat.ltb_ge in Hlo.
    destruct (k (drop (S n) s)) as [m|] eqn:Hk.
    + intros [= <-]. exists (S n), m. repeat split; [lia..|done|done].
    + intros H. destruct (IH H) as (j & m & Hj & Hm & ->).
      exists j, m. repeat split; [lia..|done].
Qed.

Lemma backtrack_complete k s lo n j :
  lo <= j <= n -> is_Some (k (drop j s)) -> is_Some (Re.backtrack k s lo n).
Proof.
  intros Hj Hk. induction n as [|n IH]; simpl.
  - assert (j = 0) as -> by lia. replace (0 <? lo) with false by (symmetry; apply Nat.ltb_ge; lia).
    destruct Hk as [m Hm]. simpl in Hm. rewrite Hm. eauto.
  - replace (S n <? lo) with false by (symmetry; apply Nat.ltb_ge; lia).
    destruct (k (drop (S n) s)) as [m|] eqn:Hm; [eauto|].
    apply IH. destruct (decide (j = S n)) as [->|]; [|lia].
    rewrite Hm in Hk. by destruct Hk.
Qed.

(** What the matcher returns is a prefix in the language of the pattern. *)
Lemma match_here_sound r s n :
  Re.match_here r s = Some n -> n <= length s /\ Re.matches r (take n s).
Proof.
  revert s n. induction r as [|p r IH]; intros s n; simpl.
  - intros [= <-]. split; [lia|]. rewrite take_0. constructor.
  - intros H. apply backtrack_sound in H as (j & m & [Hlo Hhi] & Hm & ->).
    apply IH in Hm as [Hlen Hm]. rewrite length_drop in Hlen.
    pose proof (cap_le (Re.p_max p) (Re.run (Re.p_set p) s)) as Hcap.
    pose proof (run_le (Re.p_set p) s) as Hrun.
    split; [lia|]. rewrite <- take_take_drop.
    constructor; [apply run_take; lia | rewrite length_take; lia | | done].
    rewrite length_take. replace (j `min` length s) with j by lia.
    by eapply cap_within.
Qed.

(** The matcher finds a match wherever the language has a prefix. *)
Lemma match_here_complete r x s :
  Re.matches r x -> is_Some (Re.match_here r (x ++ s)).
Proof.
  intros H. revert s. induction H as [|p r x y Hx Hmin Hmax _ IH]; intros s; simpl; [eauto|].
  apply backtrack_complete with (j := length x).
  - split; [done|]. apply within_cap; [done|]. rewrite <- app_assoc. by apply run_app.
  - rewrite <- app_assoc, drop_app_length. apply IH.
Qed.

Lemma matches_min_length r x : Re.matches r x -> Re.min_length r <= length x.
Proof.
  induction 1 as [|p r x y _ Hmin _ _ IH]; simpl; [done|]. rewrite length_app. lia.
Qed.

Lemma substring_cons m c s : substring m s -> substring m (c :: s).
Proof. intros (u & v & ->). by exists (c :: u), v. Qed.

(** Every string the scan reports is in the language and occurs in the text. *)
Lemma scan_sound r k s m :
  m ∈ Re.scan r k s -> Re.matches r m /\ substring m s.
Proof.
  revert k. induction s as [|c s IH]; intros k; simpl.
  - destruct k; [|by intros ?%elem_of_nil].
    destruct (Re.match_here r []) as [n|] eqn:Hn; [|by intros ?%elem_of_nil].
    intros ->%list_elem_of_singleton. apply match_here_sound in Hn as [Hn Hm].
    rewrite take_nil in Hm. split; [done|]. by exists [], [].
  - destruct k as [|k].
    + destruct (Re.match_here r (c :: s)) as [n|] eqn:Hn.
      * intros [->|Hin]%elem_of_cons.
        -- apply match_here_sound in Hn as [_ Hm]. split; [done|].
           exists [], (drop n (c :: s)). simpl. by rewrite take_drop.
        -- apply IH in Hin as [? ?]. split; [done|]. by apply substring_cons.
      * intros Hin. apply IH in Hin as [? ?]. split; [done|]. by apply substring_cons.
    + intros Hin. apply IH in Hin as [? ?]. split; [done|]. by apply substring_cons.
Qed.

(** Every occurrence of a string of the language starts inside a reported
    match: the scan only passes over it as part of a match found earlier. *)
Lemma scan_cover r k s u x v :
  0 < Re.min_length r ->
  s = u ++ x ++ v -> Re.matches r x -> k <= length u ->
  exists u' m v',
    s = u' ++ m ++ v' /\ m ∈ Re.scan r k s /\ k <= length u' /\
    length u' <= length u < length u' + length m.
Proof.
  intros Hpos. revert k u. induction s as [|c s IH]; intros k u Hs Hx Hk.
  - apply matches_min_length in Hx. apply (f_equal length) in Hs.
    rewrite !length_app in Hs. simpl in Hs. lia.
  - assert (Hstep : forall k', k' <= length u - 1 -> u <> [] ->
              exists u' m v', c :: s = u' ++ m ++ v' /\ m ∈ Re.scan r k' s /\
                S k' <= length u' /\ length u' <= length u < length u' + length m).
    { intros k' Hk' Hu. destruct u as [|c' u]; [done|]. simpl in Hs, Hk'.
      injection Hs as <- Hs.
      destruct (IH k' u Hs Hx) as (u' & m & v' & -> & Hin & Hk'' & Hlen); [lia|].
      exists (c :: u'), m, v'. simpl. repeat split; [done|lia..]. }
    simpl. destruct k as [|k].
    + destruct (Re.match_here r (c :: s)) as [n|] eqn:Hn.
      * pose proof (match_here_sound _ _ _ Hn) as [Hnlen Hm].
        pose proof (matches_min_length _ _ Hm) as Hmin.
        rewrite length_take in Hmin.
        destruct (decide (length u < n)) as [Hcov|Hnot].
        -- exists [], (take n (c :: s)), (drop n (c :: s)). simpl.
           rewrite take_drop, length_take. repeat split; [left|lia..].
        -- destruct (Hstep (Nat.pred n)) as (u' & m & v' & E & Hin & ? & ?).
           { lia. } { intros ->. simpl in Hnot. lia. }
           exists u', m, v'. repeat split; [done|by right|lia..].
      * destruct u as [|c' u].
        { simpl in Hs. rewrite Hs in Hn.
          destruct (match_here_complete r x v Hx) as [? E]. congruence. }
        destruct (Hstep 0) as (u' & m & v' & E & Hin & ? & ?); [simpl; lia|done|].
        exists u', m, v'. repeat split; [done|done|lia..].
    + destruct (Hstep k) as (u' & m & v' & E & Hin & ? & ?).
      { lia. } { intros ->. simpl in Hk. lia. }
      exists u', m, v'. repeat split; [done|done|lia..].
Qed.

Lemma email_pattern_min_length : Re.min_length email_pattern = 6.
Proof. reflexivity. Qed.

End Matcher.

(** ** The digest workflow *)

Section Hasher.

Implicit Types (s : state) (p h : pystr) (f g : file).

Lemma read_binary_run p s :
  read_binary p s =
    (match fs s !! p with
     | None => inl (FileNotFoundError p)
     | Some f => if f_readable f then inr (f_data f) else inl (PermissionError p)
     end, s).
Proof.
  unfold read_binary, bind, get. destruct (fs s !! p) as [f|]; [|done].
  by destruct (f_readable f).
Qed.

Lemma read_text_run p s :
  read_text p s =
    (match fs s !! p with
     | None => inl (FileNotFoundError p)
     | Some f =>
         if f_readable f then inr (universal_newlines (f_data f))
         else inl (PermissionError p)
     end, s).
Proof.
  unfold read_text, bind. rewrite read_binary_run.
  destruct (fs s !! p) as [f|]; [|done]. by destruct (f_readable f).
Qed.

(** [verify_hash] on two readable files. *)
Lemma verify_hash_run p h s f g :
  fs s !! p = Some f -> f_readable f = true ->
  fs s !! h = Some g -> f_readable g = true ->
  let ok := bool_decide (SHA256.hexdigest (f_data f) = strip (universal_newlines (f_data g))) in
  verify_hash p h s = (inr ok, set_log (log s ++ [verify_record p ok]) s).
Proof.
  intros Hp Hf Hh Hg ok. unfold verify_hash, bind.
  rewrite read_binary_run, Hp, Hf, read_text_run, Hh, Hg. subst ok.
  destruct (decide (SHA256.hexdigest (f_data f) = strip (universal_newlines (f_data g)))) as [E|E].
  - by rewrite bool_decide_eq_true_2.
  - by rewrite bool_decide_eq_false_2.
Qed.

(** [verify_hash] when the sidecar exists but may not be read. *)
Lemma verify_hash_denied p h s f g :
  fs s !! p = Some f -> f_readable f = true ->
  fs s !! h = Some g -> f_readable g = false ->
  verify_hash p h s = (inl (PermissionError h), s).
Proof.
  intros Hp Hf Hh Hg. unfold verify_hash, bind.
  by rewrite read_binary_run, Hp, Hf, read_text_run, Hh, Hg.
Qed.

Lemma hexdigest_no_break (c : ascii) data : isspace c = true -> c ∉ SHA256.hexdigest data.
Proof.
  intros Hc Hin. pose proof (hexdigest_no_space data) as H.
  rewrite Forall_forall in H. apply H in Hin. congruence.
Qed.


(** A text that starts with the header never strips to a digest. *)
Lemma header_not_digest data (rest : pystr) :
  SHA256.hexdigest data <> strip (universal_newlines (header ++ rest)).
Proof.
  rewrite strip_universal.
  destruct (strip_head "H"%char (lit "ash sha256 for file: " ++ rest)) as [r Hr]; [done|].
  change (header ++ rest) with ("H"%char :: lit "ash sha256 for file: " ++ rest).
  rewrite Hr, universal_newlines_cons, decide_False by done.
  intros E. pose proof (hexdigest_lower data) as H. rewrite E in H.
  by apply Forall_cons in H as [? _].
Qed.

Lemma sidecar_path_fresh p : p ++ lit ".sha256" <> p.
Proof. intros E. apply (f_equal length) in E. rewrite length_app in E. simpl in E. lia. Qed.

Lemma truthy_true {A} (l : list A) : l <> [] -> truthy l = true.
Proof. by destruct l. Qed.

(** [generate_hash] on a chosen file, case by case. *)
Lemma generate_hash_run p s :
  p <> [] ->
  generate_hash p s =
    match fs s !! p with
    | None => (inl (FileNotFoundError p), s)
    | Some f =>
        if f_readable f then
          match fs s !! (p ++ lit ".sha256") with
          | None => (inr tt, generated p f true s)
          | Some g =>
              if f_writable g then (inr tt, generated p f (f_readable g) s)
              else (inl (PermissionError (p ++ lit ".sha256")), s)
          end
        else (inl (PermissionError p), s)
    end.
Proof.
  intros Hp. unfold generate_hash. rewrite truthy_true by done.
  unfold bind at 1. rewrite read_binary_run.
  destruct (fs s !! p) as [f|]; [|done]. destruct (f_readable f); [|done].
  unfold open_write, write, messagebox, logging, modify, raise, get, bind.
  destruct (fs s !! (p ++ lit ".sha256")) as [g|]; [destruct (f_writable g); [|done]|].
  - unfold generated, written_sidecar, header. cbn [fs set_fs set_boxes set_log boxes log].
    rewrite !alter_insert_eq. cbn [f_data f_readable f_writable].
    by rewrite app_nil_l, <- !app_assoc.
  - unfold generated, written_sidecar, header. cbn [fs set_fs set_boxes set_log boxes log].
    rewrite !alter_insert_eq. cbn [f_data f_readable f_writable].
    by rewrite app_nil_l, <- !app_assoc.
Qed.

(** A successful [generate_hash] read the source and wrote the sidecar. *)
Lemma generate_hash_ok p s :
  p <> [] -> fst (generate_hash p s) = inr tt ->
  exists f,
    fs s !! p = Some f /\ f_readable f = true /\
    snd (generate_hash p s) =
      generated p f (readable_after_write (fs s !! (p ++ lit ".sha256"))) s.
Proof.
  intros Hp. rewrite generate_hash_run by done.
  destruct (fs s !! p) as [f|]; [|done]. destruct (f_readable f) eqn:Hr; [|done].
  destruct (fs s !! (p ++ lit ".sha256")) as [g|]; [destruct (f_writable g); [|done]|];
    intros _; by exists f.
Qed.

End Hasher.

(** ** The extraction run *)

Section Extractor.

Variable pandas : reader.
Variable set_order : list pystr -> list pystr.

Implicit Types (s : state) (p : pystr) (texts : list pystr) (e : exn).

Lemma read_csv_run p s :
  read_csv pandas p s =
    (match fs s !! p with
     | None => inl (FileNotFoundError p)
     | Some f => if f_readable f then pandas (f_data f) else inl (PermissionError p)
     end, s).
Proof.
  unfold read_csv, bind. rewrite read_binary_run.
  destruct (fs s !! p) as [f|]; [|done]. destruct (f_readable f); [|done].
  by destruct (pandas (f_data f)).
Qed.

Lemma read_csv_state p s : read_csv pandas p s = (fst (read_csv pandas p s), s).
Proof. by rewrite read_csv_run. Qed.

Lemma set_emails_twice l1 l2 s : set_emails l1 (set_emails l2 s) = set_emails l1 s.
Proof. done. Qed.

Lemma for_each_extend texts s :
  for_each texts (fun text_data =>
    modify (fun s => set_emails (emails s ++ Re.findall email_pattern text_data) s)) s
  = (inr tt, set_emails (emails s ++ found texts) s).
Proof.
  revert s. induction texts as [|t texts IH]; intros s.
  - unfold found. simpl. rewrite app_nil_r. by destruct s.
  - cbn [for_each]. unfold bind at 1. unfold modify at 1. rewrite IH.
    unfold found. cbn [flat_map emails set_emails]. by rewrite set_emails_twice, app_assoc.
Qed.

(** [find_emails] never raises; its final state by outcome of the reader. *)
Lemma find_emails_run p s :
  find_emails pandas set_order p s =
    (inr tt,
     match fst (read_csv pandas p s) with
     | inl e => error_state p e s
     | inr (texts, Some e) => error_state p e (set_emails (found texts) (file_read p s))
     | inr (texts, None) =>
         success_state p (list_set set_order (found texts)) (file_read p s)
     end).
Proof.
  unfold find_emails, try_finally, try_except. unfold bind at 1.
  rewrite read_csv_state. destruct (fst (read_csv pandas p s)) as [e|[texts tail]]; [done|].
  unfold bind at 1. unfold logging at 1, modify at 1.
  unfold bind at 1. unfold modify at 1.
  unfold bind at 1. unfold for_chunks, bind at 1. rewrite for_each_extend.
  cbn [fst snd]. destruct tail as [e|]; [done|]. reflexivity.
Qed.

End Extractor.

(** ** Properties of the digest workflow *)

Section Lines.

Lemma lines_from_no_break cur a : LF ∉ a -> lines_from cur a = [rev cur ++ a].
Proof.
  revert cur. induction a as [|c a IH]; intros cur Hn; simpl.
  - by rewrite app_nil_r.
  - apply not_elem_of_cons in Hn as [Hc Ha]. rewrite decide_False by done.
    rewrite IH by done. simpl. by rewrite <- app_assoc.
Qed.

Lemma lines_from_break cur a b :
  LF ∉ a -> lines_from cur (a ++ LF :: b) = (rev cur ++ a) :: lines_from [] b.
Proof.
  revert cur. induction a as [|c a IH]; intros cur Hn; cbn [app lines_from].
  - rewrite decide_True by done. by rewrite app_nil_r.
  - apply not_elem_of_cons in Hn as [Hc Ha]. rewrite decide_False by done.
    rewrite IH by done. simpl. by rewrite <- app_assoc.
Qed.

(** A text with one line break has two lines. *)
Lemma lines_two a b : LF ∉ a -> LF ∉ b -> lines (a ++ [LF] ++ b) = [a; b].
Proof.
  intros Ha Hb. unfold lines. simpl. rewrite lines_from_break by done.
  by rewrite lines_from_no_break.
Qed.

Lemma header_no_break (c : ascii) : isspace c = true -> c <> " "%char -> c ∉ header.
Proof.
  intros Hs Hc Hin. vm_compute in Hin.
  repeat (apply elem_of_cons in Hin as [->|Hin]; [done|]). by apply elem_of_nil in Hin.
Qed.

Lemma strip_digest data : strip (SHA256.hexdigest data) = SHA256.hexdigest data.
Proof.
  pose proof (strip_padded [] (SHA256.hexdigest data) []) as H.
  rewrite app_nil_r in H. apply H; [constructor|apply hexdigest_no_space|constructor].
Qed.

End Lines.



(** C1.  Verifying a file against the sidecar that [generate_hash] has just
    written for it never returns [True]: the sidecar starts with the header
    line, and [verify_hash] compares the digest with the whole stripped
    content.  It returns [False] whenever the sidecar can be read back. *)
Theorem generate_then_verify_never_true (p : pystr) (s : state) :
  p <> [] -> fst (generate_hash p s) = inr tt ->
  let s' := snd (generate_hash p s) in
  fst (verify_hash p (p ++ lit ".sha256") s') <> inr true /\
  (readable_after_write (fs s !! (p ++ lit ".sha256")) = true ->
   fst (verify_hash p (p ++ lit ".sha256") s') = inr false).
Proof.
  intros Hp Hok s'. destruct (generate_hash_ok p s Hp Hok) as (f & Hf & Hr & Hs').
  fold s' in Hs'. set (h := p ++ lit ".sha256") in *.
  set (r := readable_after_write (fs s !! h)) in *.
  assert (Hp' : fs s' !! p = Some f).
  { rewrite Hs'. unfold generated. cbn [fs set_fs set_boxes set_log].
    rewrite lookup_insert_ne; [done|]. apply sidecar_path_fresh. }
  assert (Hh' : fs s' !! h = Some (File r true (written_sidecar p f))).
  { rewrite Hs'. unfold generated. cbn [fs set_fs set_boxes set_log]. apply lookup_insert_eq. }
  destruct r eqn:Er.
  - rewrite (verify_hash_run p h s' f _ Hp' Hr Hh') by done. cbn [fst f_data].
    rewrite bool_decide_eq_false_2; [by split|].
    unfold written_sidecar. apply header_not_digest.
  - rewrite (verify_hash_denied p h s' f _ Hp' Hr Hh') by done. by split.
Qed.

Lemma generate_then_verify_never_true_witness :
  fst (verify_hash Sample.csv (Sample.csv ++ lit ".sha256")
         (snd (generate_hash Sample.csv (Sample.empty_state Sample.disk)))) = inr false.
Proof.
  apply (generate_then_verify_never_true Sample.csv (Sample.empty_state Sample.disk));
    [done | vm_compute; reflexivity | vm_compute; reflexivity].
Defined.

(** C2.  Against a sidecar in the format [generate_hash] writes (the header
    line, then the digest of the file), the comparison the specification
    describes, digest against trimmed second line, succeeds, while
    [verify_hash] returns [False]. *)
Theorem verify_hash_ignores_digest_line (p h : pystr) (s : state) (f g : file) :
  fs s !! p = Some f -> f_readable f = true ->
  fs s !! h = Some g -> f_readable g = true ->
  f_data g = written_sidecar p f -> LF ∉ p -> CR ∉ p ->
  spec_verifyDigest (f_data f) (universal_newlines (f_data g)) = true /\
  fst (verify_hash p h s) = inr false.
Proof.
  intros Hp Hf Hh Hg E Hlf Hcr. split.
  - rewrite E. unfold written_sidecar.
    rewrite universal_newlines_id.
    2:{ rewrite !not_elem_of_app. repeat split; [by apply header_no_break|done| |by apply hexdigest_no_break].
        by intros ?%list_elem_of_singleton. }
    unfold spec_verifyDigest. rewrite (app_assoc header p), lines_two.
    + change (([header ++ p; SHA256.hexdigest (f_data f)] : list pystr) !! 1%nat)
        with (Some (SHA256.hexdigest (f_data f))).
      cbn [fmap option_fmap option_map].
      rewrite strip_digest. by apply bool_decide_eq_true_2.
    + rewrite not_elem_of_app. split; [by apply header_no_break|done].
    + by apply hexdigest_no_break.
  - rewrite (verify_hash_run p h s f g) by done. cbn [fst].
    rewrite bool_decide_eq_false_2; [done|]. rewrite E. apply header_not_digest.
Qed.

Lemma verify_hash_ignores_digest_line_witness :
  spec_verifyDigest Sample.csv_data
    (universal_newlines (written_sidecar Sample.csv (Sample.plain Sample.csv_data))) = true /\
  fst (verify_hash Sample.csv Sample.sidecar
         (snd (generate_hash Sample.csv (Sample.empty_state Sample.disk)))) = inr false.
Proof.
  apply (verify_hash_ignores_digest_line Sample.csv Sample.sidecar
           (snd (generate_hash Sample.csv (Sample.empty_state Sample.disk)))
           (Sample.plain Sample.csv_data)
           (File true true (written_sidecar Sample.csv (Sample.plain Sample.csv_data))));
    try (vm_compute; reflexivity).
  - intros Hin. vm_compute in Hin.
    repeat (apply elem_of_cons in Hin as [Hin|Hin]; [discriminate Hin|]). by apply elem_of_nil in Hin.
  - intros Hin. vm_compute in Hin.
    repeat (apply elem_of_cons in Hin as [Hin|Hin]; [discriminate Hin|]). by apply elem_of_nil in Hin.
Defined.

(** C6, as the code has it.  A successful [generate_hash] leaves at
    [<source>.sha256] a file whose content is the header
    ["Hash sha256 for file: "] followed by the source path, one line feed,
    and the sixty-four lowercase hexadecimal digits of the SHA-256 digest of
    the source, with nothing after the digest; the content does not depend
    on what the sidecar held before.  When the path contains no line feed
    these are exactly two lines. *)
Theorem generate_hash_sidecar (p : pystr) (s : state) :
  p <> [] -> fst (generate_hash p s) = inr tt ->
  exists f g,
    fs s !! p = Some f /\
    fs (snd (generate_hash p s)) !! (p ++ lit ".sha256") = Some g /\
    f_data g = lit "Hash sha256 for file: " ++ p ++ [LF] ++ SHA256.hexdigest (f_data f) /\
    length (SHA256.hexdigest (f_data f)) = 64%nat /\
    Forall (fun c => lower_hex c = true) (SHA256.hexdigest (f_data f)) /\
    (LF ∉ p ->
     lines (f_data g) = [lit "Hash sha256 for file: " ++ p; SHA256.hexdigest (f_data f)]).
Proof.
  intros Hp Hok. destruct (generate_hash_ok p s Hp Hok) as (f & Hf & Hr & Hs').
  exists f. eexists. split; [done|]. split.
  { rewrite Hs'. unfold generated. cbn [fs set_fs set_boxes set_log]. apply lookup_insert_eq. }
  cbn [f_data]. split; [done|]. split; [apply hexdigest_length|].
  split; [apply hexdigest_lower|]. intros Hlf.
  unfold written_sidecar. rewrite (app_assoc header p). apply lines_two.
  - rewrite not_elem_of_app. split; [by apply header_no_break|done].
  - by apply hexdigest_no_break.
Qed.

Lemma generate_hash_sidecar_witness :
  exists f g,
    Sample.disk !! Sample.csv = Some f /\
    fs (snd (generate_hash Sample.csv (Sample.empty_state Sample.disk)))
      !! (Sample.csv ++ lit ".sha256") = Some g /\
    f_data g = lit "Hash sha256 for file: " ++ Sample.csv ++ [LF] ++ SHA256.hexdigest (f_data f).
Proof.
  destruct (generate_hash_sidecar Sample.csv (Sample.empty_state Sample.disk))
    as (f & g & Hf & Hg & Hdata & _); [done | vm_compute; reflexivity |].
  exists f, g. split; [exact Hf|]. split; [exact Hg | exact Hdata].
Defined.

(** C6, where the code departs from it.  The sidecar [generate_hash] writes
    is not the two terminated lines of [spec_sidecar]: the digest is the end
    of the file, no line feed follows it.  And for a path that contains a
    line feed the header alone takes two lines. *)
Lemma generate_hash_no_final_newline :
  let s' := snd (generate_hash Sample.csv (Sample.empty_state Sample.disk)) in
  let s2 := snd (generate_hash Sample.odd_csv (Sample.empty_state Sample.odd_disk)) in
  fst (generate_hash Sample.csv (Sample.empty_state Sample.disk)) = inr tt /\
  f_data <$> fs s' !! Sample.sidecar <> Some (spec_sidecar Sample.csv Sample.csv_data) /\
  (f_data <$> fs s' !! Sample.sidecar) ≫= last = Some "b"%char /\
  fst (generate_hash Sample.odd_csv (Sample.empty_state Sample.odd_disk)) = inr tt /\
  (length ∘ lines ∘ f_data) <$> fs s2 !! (Sample.odd_csv ++ lit ".sha256") = Some 3%nat.
Proof.
  split; [vm_compute; reflexivity|]. split; [|repeat split; vm_compute; reflexivity].
  intros E. apply (f_equal (fmap (@length ascii))) in E. vm_compute in E. discriminate E.
Qed.

(** C5.  When the sidecar exists and [verify_hash] returns [False],
    [open_file] shows the tamper warning, logs the mismatch and returns: no
    worker is started, the progress bar and the status are not touched, and
    the stored result and the files are as before. *)
Theorem open_file_mismatch_aborts (p : pystr) (s : state) :
  p <> [] ->
  is_Some (fs s !! (p ++ lit ".sha256")) ->
  fst (verify_hash p (p ++ lit ".sha256") s) = inr false ->
  let s' := snd (open_file p s) in
  fst (open_file p s) = inr tt /\
  threads s' = threads s /\
  progress s' = progress s /\
  status_label s' = status_label s /\
  emails s' = emails s /\
  result_text s' = result_text s /\
  fs s' = fs s /\
  boxes s' = boxes s ++
    [showerror (lit "Hash Mismatch")
       [Txt (lit "The file hash does not match the saved hash. The file may have been tampered with.")]] /\
  log s' = log s ++
    [(WARNING, [Txt (lit "Hash verification failed for file: " ++ p)]);
     (WARNING, [Txt (lit "Hash mismatch for file: " ++ p)])].
Proof.
  intros Hp Hex Hv s'. subst s'.
  assert (Hrun : verify_hash p (p ++ lit ".sha256") s =
                 (inr false, set_log (log s ++ [verify_record p false]) s)).
  { revert Hv. unfold verify_hash, bind. rewrite read_binary_run.
    destruct (fs s !! p) as [f|]; [|done]. destruct (f_readable f); [|done].
    rewrite read_text_run. destruct (fs s !! (p ++ lit ".sha256")) as [g|]; [|done].
    destruct (f_readable g); [|done]. by destruct (decide _). }
  assert (E : open_file p s =
              (inr tt,
               set_log ((log s ++ [verify_record p false])
                        ++ [(WARNING, [Txt (lit "Hash mismatch for file: " ++ p)])])
                 (set_boxes (boxes s ++
                    [showerror (lit "Hash Mismatch")
                       [Txt (lit "The file hash does not match the saved hash. The file may have been tampered with.")]])
                    s))).
  { unfold open_file. rewrite truthy_true by done.
    unfold path_exists, messagebox, logging, modify, get, ret, bind.
    rewrite bool_decide_eq_true_2 by done. rewrite Hrun. reflexivity. }
  rewrite E. cbn [fst snd threads progress status_label emails result_text fs boxes log
                  set_log set_boxes].
  rewrite <- app_assoc. repeat split.
Qed.

Lemma open_file_mismatch_aborts_witness :
  threads (snd (open_file Sample.csv
                  (snd (generate_hash Sample.csv (Sample.empty_state Sample.disk))))) =
  threads (snd (generate_hash Sample.csv (Sample.empty_state Sample.disk))).
Proof.
  destruct (open_file_mismatch_aborts Sample.csv
              (snd (generate_hash Sample.csv (Sample.empty_state Sample.disk))))
    as (_ & H & _); [done | vm_compute; eauto | vm_compute; reflexivity | exact H].
Defined.

(** C7.  With an empty stored result, [save_results] shows "No emails to
    save.", logs the same words and returns: no file is written, whatever
    the save dialog would have answered, and nothing else changes. *)
Theorem save_results_nothing_to_save (file_path : pystr) (s : state) :
  emails s = [] ->
  save_results file_path s =
    (inr tt,
     State (fs s) (emails s) (result_text s) (status_label s) (progress s)
       (boxes s ++ [showinfo (lit "No Results") [Txt (lit "No emails to save.")]])
       (log s ++ [(INFO, [Txt (lit "No emails to save.")])])
       (threads s)).
Proof.
  intros He. destruct s as [fs0 em rt st pr bx lg th]. cbn [emails] in He. subst em. reflexivity.
Qed.

Lemma save_results_nothing_to_save_witness :
  fs (snd (save_results (lit "out.txt") (Sample.empty_state Sample.disk))) = Sample.disk.
Proof.
  rewrite (save_results_nothing_to_save (lit "out.txt") (Sample.empty_state Sample.disk));
    reflexivity.
Defined.

(** ** Properties of the extraction run *)

Section ExtractionProperties.

Variable pandas : reader.
Variable set_order : list pystr -> list pystr.
Hypothesis set_order_perm : forall l, set_order l ≡ₚ l.

Implicit Types (s : state) (p : pystr) (texts : list pystr) (e : exn).

Lemma elem_of_list_set l (m : pystr) : m ∈ list_set set_order l <-> m ∈ l.
Proof. unfold list_set. by rewrite set_order_perm, elem_of_remove_dups. Qed.

Lemma find_emails_result p s texts :
  fst (read_csv pandas p s) = inr (texts, None) ->
  emails (snd (find_emails pandas set_order p s)) = list_set set_order (found texts).
Proof. intros H. by rewrite find_emails_run, H. Qed.

(** C8.  After a successful run the stored result has no duplicates, and it
    holds exactly the addresses matched in some chunk, however often each
    was matched. *)
Theorem find_emails_no_duplicates p s texts :
  fst (read_csv pandas p s) = inr (texts, None) ->
  NoDup (emails (snd (find_emails pandas set_order p s))) /\
  (forall m, m ∈ emails (snd (find_emails pandas set_order p s)) <-> m ∈ found texts).
Proof.
  intros H. rewrite (find_emails_result p s texts H). split.
  - unfold list_set. rewrite set_order_perm. apply NoDup_remove_dups.
  - intros m. by rewrite elem_of_list_set.
Qed.

(** C3, as the code has it.  After a successful run every stored string
    is in the language of the pattern and occurs in the text of some chunk;
    and every occurrence, in the text of a chunk, of a string of the language
    starts inside an occurrence of a stored string.  (The scan is leftmost,
    greedy and without overlap: what lies inside a reported match is not
    reported again.) *)
Theorem find_emails_sound_and_covering p s texts :
  fst (read_csv pandas p s) = inr (texts, None) ->
  let result := emails (snd (find_emails pandas set_order p s)) in
  (forall m, m ∈ result ->
     Re.matches email_pattern m /\ exists t, t ∈ texts /\ substring m t) /\
  (forall t u x v,
     t ∈ texts -> t = u ++ x ++ v -> Re.matches email_pattern x ->
     exists u' m v',
       t = u' ++ m ++ v' /\ m ∈ result /\
       (length u' <= length u < length u' + length m)%nat).
Proof.
  intros H result. subst result. rewrite (find_emails_result p s texts H). split.
  - intros m Hm. rewrite elem_of_list_set in Hm. unfold found in Hm.
    apply list_elem_of_In, in_flat_map in Hm as (t & Ht & Hm).
    apply list_elem_of_In in Ht, Hm. apply scan_sound in Hm as [? ?]. eauto.
  - intros t u x v Ht E Hx.
    destruct (scan_cover email_pattern 0 t u x v) as (u' & m & v' & E' & Hin & _ & Hlen);
      [rewrite email_pattern_min_length; lia | done | done | lia |].
    exists u', m, v'. split; [done|]. split; [|done].
    rewrite elem_of_list_set. unfold found. apply list_elem_of_In, in_flat_map.
    exists t. split; by apply list_elem_of_In.
Qed.

(** C4, as the code has it.  A failing run is aborted and reported: the
    method returns, the status reads "Error occurred", an error box shows the
    exception, an error record is logged last, the progress bar is stopped,
    and the displayed text and the files are untouched.  The stored result
    is not rolled back: when the reader fails after some chunks it holds the
    matches of those chunks, duplicates included; when opening the file
    fails it is unchanged. *)
Theorem find_emails_failure p s e :
  failure_of (fst (read_csv pandas p s)) = Some e ->
  let s' := snd (find_emails pandas set_order p s) in
  emails s' = stored_after_failure (fst (read_csv pandas p s)) (emails s) /\
  fst (find_emails pandas set_order p s) = inr tt /\
  status_label s' = [Txt (lit "Status: Error occurred")] /\
  boxes s' = boxes s ++ [showerror (lit "Error") [Txt (lit "An error occurred: "); Exc e]] /\
  last (log s') =
    Some (ERROR, [Txt (lit "Error processing file: " ++ p ++ lit ", Error: "); Exc e]) /\
  progress s' = false /\
  result_text s' = result_text s /\
  fs s' = fs s.
Proof.
  intros H s'. subst s'. rewrite find_emails_run.
  destruct (fst (read_csv pandas p s)) as [e'|[texts [e'|]]]; cbn [failure_of] in H;
    [injection H as -> | injection H as -> | done];
    cbn [fst snd stored_after_failure]; unfold error_state;
    cbn [emails status_label boxes log progress result_text fs
         set_progress set_log set_boxes set_status_label set_emails file_read];
    rewrite last_snoc; by repeat split.
Qed.


End ExtractionProperties.

Lemma find_emails_no_duplicates_witness :
  NoDup (emails (snd (find_emails Sample.twice Sample.insertion_order Sample.csv
                        (Sample.empty_state Sample.disk)))).
Proof.
  apply (find_emails_no_duplicates Sample.twice Sample.insertion_order
           (fun l => Permutation_refl l) Sample.csv (Sample.empty_state Sample.disk)
           [lit "            email" ++ [LF] ++ lit "alice@example.com" ++ [LF]
            ++ lit "alice@example.com"]).
  vm_compute. reflexivity.
Defined.

Example find_emails_twice :
  emails (snd (find_emails Sample.twice Sample.insertion_order Sample.csv
                 (Sample.empty_state Sample.disk))) = [lit "alice@example.com"].
Proof. vm_compute. reflexivity. Qed.

Lemma find_emails_sound_and_covering_witness :
  Re.matches email_pattern (lit "ab@cd.ef") /\
  exists t, t ∈ [lit "   email" ++ [LF] ++ lit "ab@cd.ef"] /\ substring (lit "ab@cd.ef") t.
Proof.
  destruct (find_emails_sound_and_covering Sample.one_chunk Sample.insertion_order
              (fun l => Permutation_refl l) Sample.csv (Sample.empty_state Sample.disk)
              [lit "   email" ++ [LF] ++ lit "ab@cd.ef"]) as [Hsound _];
    [vm_compute; reflexivity|].
  apply Hsound. vm_compute. left.
Defined.

(** C3, where the code departs from it.  A string of the language that
    lies inside a longer match occurs in the file and in the chunk text, and
    is not in the result. *)
Lemma find_emails_misses_inner_match :
  let text := lit "   email" ++ [LF] ++ lit "ab@cd.ef" in
  let s := Sample.empty_state Sample.disk in
  let m := lit "b@cd.ef" in
  fst (read_csv Sample.one_chunk Sample.csv s) = inr ([text], None) /\
  substring m Sample.csv_data /\ substring m text /\
  Re.matches email_pattern m /\
  m ∉ emails (snd (find_emails Sample.one_chunk Sample.insertion_order Sample.csv s)).
Proof.
  cbv zeta. split; [vm_compute; reflexivity|]. split; [|split; [|split]].
  - by exists (lit "email" ++ [LF] ++ lit "a"), [LF].
  - by exists (lit "   email" ++ [LF] ++ lit "a"), [].
  - change (lit "b@cd.ef") with (lit "b" ++ lit "@" ++ lit "cd" ++ lit "." ++ lit "ef" ++ []).
    in_language.
  - intros Hin. vm_compute in Hin.
    apply list_elem_of_singleton in Hin. discriminate Hin.
Qed.

Lemma find_emails_failure_witness :
  emails (snd (find_emails Sample.failing_after_one Sample.insertion_order Sample.csv
                 (Sample.with_result Sample.disk))) = [lit "ab@cd.ef"].
Proof.
  destruct (find_emails_failure Sample.failing_after_one Sample.insertion_order Sample.csv
              (Sample.with_result Sample.disk)
              (ReaderError (lit "Error tokenizing data. C error: EOF inside string")))
    as [H _]; [vm_compute; reflexivity|].
  rewrite H. vm_compute. reflexivity.
Defined.

(** C4, where the code departs from it.  A run that fails after its first
    chunk leaves that chunk's matches as the stored result, in place of the
    result of the previous run. *)
Lemma find_emails_failure_leaves_partial :
  let s := Sample.with_result Sample.disk in
  let s' := snd (find_emails Sample.failing_after_one Sample.insertion_order Sample.csv s) in
  status_label s' = [Txt (lit "Status: Error occurred")] /\
  emails s = [lit "old@x.yz"] /\
  emails s' = [lit "ab@cd.ef"] /\
  emails s' <> emails s /\ emails s' <> [].
Proof. vm_compute. repeat split; discriminate. Qed.


(** ** Further properties of the digest workflow *)

Section HasherMore.

Implicit Types (s : state) (p h : pystr) (f g : file) (e : exn).

(** [verify_hash], case by case on the two files. *)
Lemma verify_hash_cases p h s :
  verify_hash p h s =
    match fs s !! p with
    | None => (inl (FileNotFoundError p), s)
    | Some f =>
        if f_readable f then
          match fs s !! h with
          | None => (inl (FileNotFoundError h), s)
          | Some g =>
              if f_readable g then
                let ok := bool_decide (SHA256.hexdigest (f_data f)
                                       = strip (universal_newlines (f_data g))) in
                (inr ok, set_log (log s ++ [verify_record p ok]) s)
              else (inl (PermissionError h), s)
          end
        else (inl (PermissionError p), s)
    end.
Proof.
  destruct (fs s !! p) as [f|] eqn:Hp.
  - destruct (f_readable f) eqn:Hf.
    + destruct (fs s !! h) as [g|] eqn:Hh.
      * destruct (f_readable g) eqn:Hg.
        -- by apply verify_hash_run.
        -- by eapply verify_hash_denied.
      * unfold verify_hash, bind. by rewrite read_binary_run, Hp, Hf, read_text_run, Hh.
    + unfold verify_hash, bind. by rewrite read_binary_run, Hp, Hf.
  - unfold verify_hash, bind. by rewrite read_binary_run, Hp.
Qed.

(** [open_file] on a chosen path, by the outcome of the verification. *)
Lemma open_file_run p s :
  p <> [] ->
  open_file p s =
    if bool_decide (is_Some (fs s !! (p ++ lit ".sha256"))) then
      match verify_hash p (p ++ lit ".sha256") s with
      | (inl e, s1) => (inl e, s1)
      | (inr true, s1) => (inr tt, started p s1)
      | (inr false, s1) => (inr tt, mismatch_reported p s1)
      end
    else (inr tt, started p s).
Proof.
  intros Hp. unfold open_file. rewrite truthy_true by done.
  unfold path_exists, thread_start, messagebox, logging, modify, get, ret, bind.
  destruct (bool_decide (is_Some (fs s !! (p ++ lit ".sha256")))); [|done].
  destruct (verify_hash p (p ++ lit ".sha256") s) as [[e|[|]] s1]; done.
Qed.

End HasherMore.

(** X1.  [open_file] starts a worker for the chosen file exactly when a path
    was chosen and either no sidecar exists beside it or [verify_hash]
    returned [True]; in every other case (dialog cancelled, mismatch,
    exception during the verification) the list of workers is unchanged. *)
Theorem open_file_starts_worker_iff (p : pystr) (s : state) :
  let h := p ++ lit ".sha256" in
  let go := p <> [] /\ (fs s !! h = None \/ fst (verify_hash p h s) = inr true) in
  (go -> threads (snd (open_file p s)) = threads s ++ [p]) /\
  (~ go -> threads (snd (open_file p s)) = threads s).
Proof.
  intros h go. subst go. destruct (decide (p = [])) as [->|Hp].
  { split; [by intros [? _]|done]. }
  rewrite open_file_run by done. fold h.
  destruct (fs s !! h) as [g|] eqn:Hh.
  - rewrite bool_decide_eq_true_2 by eauto.
    rewrite (verify_hash_cases p h s), Hh.
    destruct (fs s !! p) as [f|]; [destruct (f_readable f)|]; [destruct (f_readable g)| |];
      cbn [fst snd]; try (split; [by intros [_ [?|?]] | done]).
    destruct (bool_decide _); cbn [fst snd threads started mismatch_reported set_log set_threads
      set_status_label set_progress set_boxes].
    + split; [done|]. intros Hn. exfalso. apply Hn. eauto.
    + split; [by intros [_ [?|?]] | done].
  - rewrite bool_decide_eq_false_2 by (intros [? ?]; done).
    split; [done|]. intros Hn. exfalso. apply Hn. eauto.
Qed.

(** X2.  When [open_file] goes ahead (no sidecar, or a sidecar that
    verifies) it returns normally with the progress bar running and the
    status "Status: Processing file...", logs "Processing started" last,
    shows no message box and changes neither the files nor the stored
    result.  Without a sidecar it does so even if the chosen file does not
    exist: nothing is read before the worker runs. *)
Theorem open_file_goes_ahead (p : pystr) (s : state) :
  p <> [] ->
  fs s !! (p ++ lit ".sha256") = None \/
    fst (verify_hash p (p ++ lit ".sha256") s) = inr true ->
  let s' := snd (open_file p s) in
  fst (open_file p s) = inr tt /\
  progress s' = true /\
  status_label s' = [Txt (lit "Status: Processing file...")] /\
  last (log s') = Some (INFO, [Txt (lit "Processing started for file: " ++ p)]) /\
  boxes s' = boxes s /\ fs s' = fs s /\ emails s' = emails s /\
  result_text s' = result_text s.
Proof.
  intros Hp Hgo s'. subst s'. rewrite open_file_run by done.
  set (h := p ++ lit ".sha256") in *.
  assert (Hlast : forall s0, last (log (started p s0))
                    = Some (INFO, [Txt (lit "Processing started for file: " ++ p)])).
  { intros s0. unfold started. cbn [log set_log]. apply last_snoc. }
  destruct (fs s !! h) as [g|] eqn:Hh.
  - destruct Hgo as [?|Hv]; [done|]. rewrite bool_decide_eq_true_2 by eauto.
    revert Hv. rewrite (verify_hash_cases p h s), Hh.
    destruct (fs s !! p) as [f|]; [destruct (f_readable f)|]; [destruct (f_readable g)| |];
      cbn [fst]; try done.
    destruct (bool_decide _); [|done]. intros _. cbn [fst snd]. rewrite Hlast. done.
  - rewrite bool_decide_eq_false_2 by (intros [? ?]; done). cbn [fst snd].
    rewrite Hlast. done.
Qed.

Lemma open_file_goes_ahead_witness :
  progress (snd (open_file (lit "absent.csv") (init ∅))) = true.
Proof.
  apply (open_file_goes_ahead (lit "absent.csv") (init ∅)); [done | left; reflexivity].
Defined.

(** X3.  When the sidecar exists and the verification raises (the source
    or the sidecar cannot be read), [open_file] lets the exception through
    and leaves the whole state as it was: no box, no log record, no worker. *)
Theorem open_file_verify_raises (p : pystr) (s : state) (e : exn) :
  p <> [] ->
  is_Some (fs s !! (p ++ lit ".sha256")) ->
  fst (verify_hash p (p ++ lit ".sha256") s) = inl e ->
  open_file p s = (inl e, s).
Proof.
  intros Hp Hex Hv. rewrite open_file_run by done. rewrite bool_decide_eq_true_2 by done.
  revert Hv. rewrite verify_hash_cases.
  destruct (fs s !! p) as [f|]; [destruct (f_readable f)|];
    [destruct (fs s !! (p ++ lit ".sha256")) as [g|]; [destruct (f_readable g)|] | |];
    cbn [fst]; try done; intros [= ?]; by subst e.
Qed.

Lemma open_file_verify_raises_witness :
  open_file Sample.csv
    (init (<[Sample.sidecar := File false true []]> Sample.disk))
  = (inl (PermissionError Sample.sidecar),
     init (<[Sample.sidecar := File false true []]> Sample.disk)).
Proof.
  apply (open_file_verify_raises Sample.csv
           (init (<[Sample.sidecar := File false true []]> Sample.disk))
           (PermissionError Sample.sidecar));
    [done | vm_compute; eauto | vm_compute; reflexivity].
Defined.

(** X4.  Once [generate_hash] has written the sidecar of a file, choosing
    that file in [open_file] never starts the extraction: the verification
    fails on the header line, so either the "Hash Mismatch" box is shown or,
    if the sidecar cannot be read back, [PermissionError] leaves the method.
    The progress bar and the stored result stay as they were. *)
Theorem generate_then_open_never_extracts (p : pystr) (s : state) :
  p <> [] -> fst (generate_hash p s) = inr tt ->
  let s1 := snd (generate_hash p s) in
  let s2 := snd (open_file p s1) in
  threads s2 = threads s /\ progress s2 = progress s /\ emails s2 = emails s /\
  (fst (open_file p s1) = inr tt /\
     last (boxes s2) =
       Some (showerror (lit "Hash Mismatch")
               [Txt (lit "The file hash does not match the saved hash. The file may have been tampered with.")])
   \/ fst (open_file p s1) = inl (PermissionError (p ++ lit ".sha256"))).
Proof.
  intros Hp Hok s1 s2. subst s2.
  destruct (generate_hash_ok p s Hp Hok) as (f & Hf & Hr & Hs1). fold s1 in Hs1.
  set (h := p ++ lit ".sha256") in *.
  set (r := readable_after_write (fs s !! h)) in *.
  assert (Hp1 : fs s1 !! p = Some f).
  { rewrite Hs1. unfold generated. cbn [fs set_fs set_boxes set_log].
    rewrite lookup_insert_ne; [done|]. apply sidecar_path_fresh. }
  assert (Hh1 : fs s1 !! h = Some (File r true (written_sidecar p f))).
  { rewrite Hs1. unfold generated. cbn [fs set_fs set_boxes set_log]. apply lookup_insert_eq. }
  assert (Hfr : threads s1 = threads s /\ progress s1 = progress s /\ emails s1 = emails s).
  { by rewrite Hs1. }
  destruct Hfr as (Ht & Hpr & He).
  rewrite open_file_run by done. fold h. rewrite bool_decide_eq_true_2 by eauto.
  rewrite verify_hash_cases, Hp1, Hr, Hh1. cbn [f_readable f_data].
  destruct r.
  - rewrite bool_decide_eq_false_2 by apply header_not_digest.
    cbn [fst snd threads progress emails boxes mismatch_reported set_log set_boxes].
    repeat split; [done..|]. left. split; [done|]. apply last_snoc.
  - cbn [fst snd]. repeat split; [done..|]. by right.
Qed.

Lemma generate_then_open_never_extracts_witness :
  threads (snd (open_file Sample.csv (snd (generate_hash Sample.csv (init Sample.disk))))) =
  threads (init Sample.disk).
Proof.
  destruct (generate_then_open_never_extracts Sample.csv (init Sample.disk))
    as [H _]; [done | vm_compute; reflexivity | exact H].
Defined.



(** X6.  A successful [generate_hash] touches one file only, the sidecar:
    every other path, the source among them, holds what it held; the stored
    result, the widgets and the workers are unchanged; one box and one log
    record are added. *)
Theorem generate_hash_frame (p : pystr) (s : state) :
  p <> [] -> fst (generate_hash p s) = inr tt ->
  let s' := snd (generate_hash p s) in
  (forall q, q <> p ++ lit ".sha256" -> fs s' !! q = fs s !! q) /\
  fs s' !! p = fs s !! p /\
  emails s' = emails s /\ result_text s' = result_text s /\
  status_label s' = status_label s /\ progress s' = progress s /\
  threads s' = threads s /\
  length (boxes s') = S (length (boxes s)) /\ length (log s') = S (length (log s)).
Proof.
  intros Hp Hok s'. destruct (generate_hash_ok p s Hp Hok) as (f & Hf & Hr & Hs').
  subst s'. rewrite Hs'. unfold generated.
  cbn [fs emails result_text status_label progress threads boxes log set_fs set_boxes set_log].
  rewrite !length_app. cbn [length].
  repeat split; try lia.
  - intros q Hq. by rewrite lookup_insert_ne.
  - rewrite lookup_insert_ne; [done|]. apply sidecar_path_fresh.
Qed.

Lemma generate_hash_frame_witness :
  fs (snd (generate_hash Sample.csv (init Sample.disk))) !! Sample.csv
  = fs (init Sample.disk) !! Sample.csv.
Proof.
  apply (generate_hash_frame Sample.csv (init Sample.disk)); [done | vm_compute; reflexivity].
Defined.

(** X7.  Generating the digest of an unchanged file a second time succeeds
    and leaves the file system exactly as the first generation left it. *)
Theorem generate_hash_twice (p : pystr) (s : state) :
  p <> [] -> fst (generate_hash p s) = inr tt ->
  let s1 := snd (generate_hash p s) in
  fst (generate_hash p s1) = inr tt /\ fs (snd (generate_hash p s1)) = fs s1.
Proof.
  intros Hp Hok s1. destruct (generate_hash_ok p s Hp Hok) as (f & Hf & Hr & Hs1).
  fold s1 in Hs1. set (h := p ++ lit ".sha256") in *.
  set (r := readable_after_write (fs s !! h)) in *.
  assert (Hfs : fs s1 = <[h := File r true (written_sidecar p f)]> (fs s)) by by rewrite Hs1.
  rewrite generate_hash_run by done. fold h.
  rewrite Hfs, lookup_insert_ne, Hf, Hr, lookup_insert_eq by apply sidecar_path_fresh.
  cbn [f_writable f_readable fst snd]. split; [done|].
  unfold generated. cbn [fs set_fs set_boxes set_log]. fold h.
  by rewrite Hfs, insert_insert_eq.
Qed.

Lemma generate_hash_twice_witness :
  fs (snd (generate_hash Sample.csv (snd (generate_hash Sample.csv (init Sample.disk)))))
  = fs (snd (generate_hash Sample.csv (init Sample.disk))).
Proof.
  apply (generate_hash_twice Sample.csv (init Sample.disk)); [done | vm_compute; reflexivity].
Defined.

(** X8.  [verify_hash] raises exactly when one of the two files cannot be
    opened for reading; the source is opened first, so its exception wins;
    nothing is logged and the state is unchanged. *)
Theorem verify_hash_raises (p h : pystr) (s : state) :
  readable_at s p && readable_at s h = false ->
  verify_hash p h s =
    (inl (if readable_at s p then open_error s h else open_error s p), s).
Proof.
  rewrite verify_hash_cases. unfold readable_at, open_error.
  destruct (fs s !! p) as [f|]; [destruct (f_readable f)|];
    [destruct (fs s !! h) as [g|]; [destruct (f_readable g)|] | |]; done.
Qed.

Lemma verify_hash_raises_witness :
  verify_hash (lit "absent.csv") Sample.csv (init Sample.disk)
  = (inl (FileNotFoundError (lit "absent.csv")), init Sample.disk).
Proof.
  apply (verify_hash_raises (lit "absent.csv") Sample.csv (init Sample.disk)).
  vm_compute. reflexivity.
Defined.

(** X9.  [verify_hash] only reads: whatever the files, the state it leaves
    differs from the one it found by at most one log record. *)
Theorem verify_hash_read_only (p h : pystr) (s : state) :
  exists records,
    (length records <= 1)%nat /\
    snd (verify_hash p h s) = set_log (log s ++ records) s /\
    (records = [] <-> exists e, fst (verify_hash p h s) = inl e).
Proof.
  rewrite verify_hash_cases.
  assert (Hid : set_log (log s ++ []) s = s) by (rewrite app_nil_r; by destruct s).
  destruct (fs s !! p) as [f|]; [destruct (f_readable f)|];
    [destruct (fs s !! h) as [g|]; [destruct (f_readable g)|] | |]; cbn [fst snd];
    try (exists []; split; [simpl; lia|]; split; [by rewrite Hid|]; split; [eauto|done]).
  eexists [_]. split; [simpl; lia|]. split; [done|]. split; [done|]. by intros [e ?].
Qed.

(** ** Further properties of the matcher *)

Section MatcherMore.

Local Open Scope nat_scope.
Implicit Types (r : Re.regex) (s x y : pystr) (c : ascii).

(** The characters of the two sets of the pattern. *)
Lemma name_char_facts c :
  Re.in_set name_chars c = true ->
  isspace c = false /\ c <> "@"%char /\ c <> LF /\ email_char c = true.
Proof.
  destruct c as [[] [] [] [] [] [] [] []]; vm_compute; intros H; try discriminate H;
    repeat split; discriminate.
Qed.

Lemma label_char_name c : Re.in_set label_chars c = true -> Re.in_set name_chars c = true.
Proof. destruct c as [[] [] [] [] [] [] [] []]; vm_compute; intros H; done. Qed.

Lemma single_char_piece (a : ascii) x :
  Forall (fun c => Re.in_set [Re.Char a] c = true) x -> 1 <= length x -> length x <= 1 ->
  x = [a].
Proof.
  intros Hx Hlo Hhi. destruct x as [|c [|c' x]]; simpl in *; [lia| |lia].
  apply Forall_cons in Hx as [Hc _]. unfold Re.in_set in Hc. simpl in Hc.
  rewrite orb_false_r in Hc. by apply bool_decide_eq_true in Hc as ->.
Qed.

(** The strings of the language: local part, at sign, domain, dot, label. *)
Lemma email_pattern_shape (m : pystr) :
  Re.matches email_pattern m ->
  exists loc dom lab,
    m = loc ++ "@"%char :: dom ++ "."%char :: lab /\
    loc <> [] /\ dom <> [] /\ 2 <= length lab /\
    Forall (fun c => Re.in_set name_chars c = true) loc /\
    Forall (fun c => Re.in_set name_chars c = true) dom /\
    Forall (fun c => Re.in_set label_chars c = true) lab.
Proof.
  unfold email_pattern. intros H.
  inversion H as [|p1 r1 loc y1 Hloc Hloc1 _ H1]; subst; clear H.
  inversion H1 as [|p2 r2 at_ y2 Hat Hat1 Hat2 H2]; subst; clear H1.
  inversion H2 as [|p3 r3 dom y3 Hdom Hdom1 _ H3]; subst; clear H2.
  inversion H3 as [|p4 r4 dot y4 Hdot Hdot1 Hdot2 H4]; subst; clear H3.
  inversion H4 as [|p5 r5 lab y5 Hlab Hlab1 _ H5]; subst; clear H4.
  inversion H5; subst; clear H5. cbn [Re.p_set Re.p_min Re.p_max Re.within] in *.
  apply single_char_piece in Hat; [|done..]. apply single_char_piece in Hdot; [|done..].
  subst at_ dot. exists loc, dom, lab. rewrite app_nil_r.
  repeat split; try done.
  - intros ->. simpl in Hloc1. lia.
  - intros ->. simpl in Hdom1. lia.
Qed.

Lemma count_occ_absent (a : ascii) x :
  Forall (fun c => c <> a) x -> count_occ ascii_dec x a = 0.
Proof.
  intros H. apply count_occ_not_In. intros Hin. rewrite Forall_forall in H.
  apply list_elem_of_In in Hin. by apply H in Hin.
Qed.

Lemma run_stops cs s c : s !! Re.run cs s = Some c -> Re.in_set cs c = false.
Proof.
  induction s as [|a s IH]; simpl; [done|].
  destruct (Re.in_set cs a) eqn:Ha; simpl; [exact IH|]. by intros [= <-].
Qed.

Lemma unbounded_end_cons p p' r : unbounded_end (p :: p' :: r) -> unbounded_end (p' :: r).
Proof. done. Qed.

(** A match of a pattern that ends with an unbounded piece cannot be
    extended by a character of that piece. *)
Lemma match_here_maximal r s n c :
  unbounded_end r -> Re.match_here r s = Some n -> s !! n = Some c ->
  Re.in_set (last_set r) c = false.
Proof.
  revert s n. induction r as [|p r IH]; intros s n Hend; [done|].
  destruct r as [|p' r'].
  - unfold unbounded_end, last_set in *. cbn [last] in *. cbn [Re.match_here].
    rewrite Hend. cbn [Re.cap]. intros H Hc.
    assert (n = Re.run (Re.p_set p) s) as ->; [|by eapply run_stops].
    revert H. destruct (Re.run (Re.p_set p) s) as [|k]; cbn [Re.backtrack];
      destruct (_ <? _); [done | | done |]; intros [= <-]; lia.
  - intros H Hc. cbn [Re.match_here] in H.
    apply backtrack_sound in H as (j & m & _ & Hm & ->).
    rewrite <- lookup_drop in Hc.
    change (last_set (p :: p' :: r')) with (last_set (p' :: r')).
    by eapply IH.
Qed.

Lemma scan_maximal r k s (m : pystr) :
  unbounded_end r -> m ∈ Re.scan r k s ->
  exists u v, s = u ++ m ++ v /\ stops (last_set r) v.
Proof.
  intros Hend. revert k. induction s as [|a s IH]; intros k; simpl.
  - destruct k; [|by intros ?%elem_of_nil].
    destruct (Re.match_here r []) as [n|] eqn:Hn; [|by intros ?%elem_of_nil].
    intros ->%list_elem_of_singleton. exists [], []. split; [done|]. by intros c.
  - assert (Hshift : forall k', m ∈ Re.scan r k' s ->
              exists u v, a :: s = u ++ m ++ v /\ stops (last_set r) v).
    { intros k' Hin. apply IH in Hin as (u & v & -> & Hv). by exists (a :: u), v. }
    destruct k as [|k]; [|apply Hshift].
    destruct (Re.match_here r (a :: s)) as [n|] eqn:Hn; [|apply Hshift].
    intros [->|Hin]%elem_of_cons; [|by eapply Hshift].
    exists [], (drop n (a :: s)). split; [simpl; by rewrite take_drop|].
    intros c Hc. apply (match_here_maximal r (a :: s) n c Hend Hn).
    rewrite <- Hc. by rewrite head_lookup, lookup_drop, Nat.add_0_r.
Qed.

(** The matches of a scan lie in the text in the order reported, one after
    the other, without overlap. *)
Lemma scan_weave r k s :
  0 < Re.min_length r ->
  exists gaps tail,
    length gaps = length (Re.scan r k s) /\ drop k s = weave gaps (Re.scan r k s) tail.
Proof.
  intros Hpos. revert k. induction s as [|a s IH]; intros k.
  - cbn [Re.scan]. destruct k.
    + destruct (Re.match_here r []) as [n|] eqn:Hn.
      * apply match_here_sound in Hn as [_ Hm]. apply matches_min_length in Hm.
        rewrite take_nil in Hm. simpl in Hm. lia.
      * by exists [], [].
    + by exists [], [].
  - cbn [Re.scan]. destruct k as [|k].
    + destruct (Re.match_here r (a :: s)) as [n|] eqn:Hn.
      * pose proof (match_here_sound _ _ _ Hn) as [Hlen Hm].
        apply matches_min_length in Hm. rewrite length_take in Hm.
        destruct n as [|n]; [lia|].
        destruct (IH n) as (gaps & tail & Hg & E).
        exists ([] :: gaps), tail. split; [simpl; by rewrite Hg|].
        cbn [weave Nat.pred]. rewrite <- E. simpl. by rewrite take_drop.
      * destruct (IH 0) as (gaps & tail & Hg & E). rewrite drop_0 in E.
        destruct (Re.scan r 0 s) as [|m ms]; destruct gaps as [|g gaps]; try done.
        -- exists [], (a :: tail). split; [done|]. simpl in *. by rewrite E.
        -- exists ((a :: g) :: gaps), tail. split; [done|]. simpl in *. by rewrite E.
    + destruct (IH k) as (gaps & tail & Hg & E). by exists gaps, tail.
Qed.

End MatcherMore.

(** X15.  The matches [re.findall] returns for the pattern lie in the text
    in the order returned, one after the other and without overlap: the text
    is a gap, the first match, a gap, the second match, and so on, up to a
    tail that holds no reported match. *)
Theorem findall_email_disjoint (text : pystr) :
  exists gaps tail,
    length gaps = length (Re.findall email_pattern text) /\
    text = weave gaps (Re.findall email_pattern text) tail.
Proof.
  destruct (scan_weave email_pattern 0 text) as (gaps & tail & Hg & E).
  { rewrite email_pattern_min_length. lia. }
  exists gaps, tail. split; [done|]. by rewrite drop_0 in E.
Qed.

(** ** Further properties of the extraction run *)

Section ExtractionMore.

Variable pandas : reader.
Variable set_order : list pystr -> list pystr.
Hypothesis set_order_perm : forall l, set_order l ≡ₚ l.

Implicit Types (s : state) (p : pystr) (texts : list pystr) (e : exn).

Lemma stored_result p s texts :
  fst (read_csv pandas p s) = inr (texts, None) ->
  snd (find_emails pandas set_order p s)
  = success_state p (list_set set_order (found texts)) (file_read p s).
Proof. intros H. by rewrite find_emails_run, H. Qed.

Lemma elem_of_stored p s texts (m : pystr) :
  fst (read_csv pandas p s) = inr (texts, None) ->
  m ∈ emails (snd (find_emails pandas set_order p s)) ->
  exists t, t ∈ texts /\ m ∈ Re.findall email_pattern t.
Proof.
  intros H. rewrite (stored_result p s texts H).
  cbn [emails success_state set_progress set_log set_boxes set_status_label
       set_result_text set_emails].
  unfold list_set. rewrite set_order_perm, elem_of_remove_dups. unfold found.
  intros Hm. apply list_elem_of_In, in_flat_map in Hm as (t & Ht & Hm).
  exists t. split; by apply list_elem_of_In.
Qed.

Lemma remove_dups_length (l : list pystr) : (length (remove_dups l) <= length l)%nat.
Proof.
  induction l as [|x l IH]; simpl; [done|]. destruct (decide_rel _ _ _); simpl; lia.
Qed.

(** X10.  Whatever the file and the reader do, [find_emails] returns
    without raising, leaves the progress bar stopped, and changes neither
    the files nor the list of workers. *)
Theorem find_emails_always_returns p s :
  fst (find_emails pandas set_order p s) = inr tt /\
  progress (snd (find_emails pandas set_order p s)) = false /\
  fs (snd (find_emails pandas set_order p s)) = fs s /\
  threads (snd (find_emails pandas set_order p s)) = threads s.
Proof.
  rewrite find_emails_run. cbn [fst snd].
  by destruct (fst (read_csv pandas p s)) as [e|[texts [e|]]].
Qed.

(** X11.  After a successful run the display agrees with the stored
    result: the text widget holds the stored addresses joined by line feeds,
    the status, the message box and the log record all give the length of
    the stored list, and that length is at most the number of matches found
    in the chunks. *)
Theorem find_emails_display_consistent p s texts :
  fst (read_csv pandas p s) = inr (texts, None) ->
  let s' := snd (find_emails pandas set_order p s) in
  let n := length (emails s') in
  result_text s' = join [LF] (emails s') /\
  status_label s' = [Txt (lit "Status: Found "); Num n; Txt (lit " email addresses.")] /\
  last (boxes s') =
    Some (showinfo (lit "Results") [Txt (lit "Found "); Num n; Txt (lit " email addresses.")]) /\
  last (log s') =
    Some (INFO, [Txt (lit "Found "); Num n; Txt (lit " email addresses in file: " ++ p)]) /\
  (n <= length (found texts))%nat.
Proof.
  intros H s' n. subst n s'. rewrite (stored_result p s texts H).
  cbn [emails result_text status_label boxes log success_state file_read set_progress set_log
       set_boxes set_status_label set_result_text set_emails].
  rewrite !last_snoc. repeat split.
  unfold list_set. rewrite set_order_perm. apply remove_dups_length.
Qed.

(** X12.  A successful run replaces the previous result: the stored list,
    the displayed text and the status depend on the files only, not on what
    an earlier run left in the application. *)
Theorem find_emails_replaces_previous p s1 s2 texts :
  fs s1 = fs s2 ->
  fst (read_csv pandas p s1) = inr (texts, None) ->
  let r1 := snd (find_emails pandas set_order p s1) in
  let r2 := snd (find_emails pandas set_order p s2) in
  emails r1 = emails r2 /\ result_text r1 = result_text r2 /\
  status_label r1 = status_label r2.
Proof.
  intros Hfs H r1 r2. subst r1 r2.
  assert (H2 : fst (read_csv pandas p s2) = inr (texts, None)).
  { revert H. by rewrite !read_csv_run, Hfs. }
  by rewrite (stored_result p s1 texts H), (stored_result p s2 texts H2).
Qed.

(** X13.  When no chunk contains an at sign, a successful run stores the
    empty list, clears the text widget and reports zero addresses. *)
Theorem find_emails_no_at_sign p s texts :
  fst (read_csv pandas p s) = inr (texts, None) ->
  Forall (fun t => "@"%char ∉ t) texts ->
  let s' := snd (find_emails pandas set_order p s) in
  emails s' = [] /\ result_text s' = [] /\
  status_label s' = [Txt (lit "Status: Found "); Num 0; Txt (lit " email addresses.")].
Proof.
  intros H Hno s'. subst s'.
  assert (Hf : found texts = []).
  { destruct (found texts) as [|m ms] eqn:E; [done|]. exfalso.
    assert (Hin : In m (found texts)) by (rewrite E; by left).
    unfold found in Hin. apply in_flat_map in Hin as (t & Ht & Hm).
    apply list_elem_of_In in Ht, Hm. apply scan_sound in Hm as [Hm (u & v & ->)].
    apply email_pattern_shape in Hm as (loc & dom & lab & -> & _).
    rewrite Forall_forall in Hno. apply (Hno _ Ht).
    rewrite !elem_of_app. right. left. right. constructor. }
  rewrite (stored_result p s texts H), Hf.
  assert (Hl : list_set set_order [] = []).
  { unfold list_set. simpl. apply Permutation_nil_r, set_order_perm. }
  rewrite Hl. done.
Qed.

(** X14.  Every address stored by a successful run is a non-empty local
    part, one at sign, a non-empty domain, a dot and a label of at least two
    characters; it is made of ASCII letters, digits, dots, underscores,
    hyphens and exactly one at sign, holds no whitespace and no line break,
    and is at least six characters long. *)
Theorem find_emails_email_shape p s texts (m : pystr) :
  fst (read_csv pandas p s) = inr (texts, None) ->
  m ∈ emails (snd (find_emails pandas set_order p s)) ->
  (exists loc dom lab,
     m = loc ++ "@"%char :: dom ++ "."%char :: lab /\
     loc <> [] /\ dom <> [] /\ (2 <= length lab)%nat /\
     Forall (fun c => Re.in_set name_chars c = true) loc /\
     Forall (fun c => Re.in_set name_chars c = true) dom /\
     Forall (fun c => Re.in_set label_chars c = true) lab) /\
  Forall (fun c => email_char c = true) m /\
  count_occ ascii_dec m "@"%char = 1%nat /\
  Forall (fun c => isspace c = false) m /\
  (LF ∉ m) /\
  (6 <= length m)%nat.
Proof.
  intros H Hm. destruct (elem_of_stored p s texts m H Hm) as (t & _ & Hin).
  apply scan_sound in Hin as [Hlang _].
  pose proof (matches_min_length _ _ Hlang) as Hlen.
  rewrite email_pattern_min_length in Hlen.
  destruct (email_pattern_shape m Hlang) as (loc & dom & lab & -> & Hl & Hd & Hb & Fl & Fd & Fb).
  assert (Fb' : Forall (fun c => Re.in_set name_chars c = true) lab).
  { eapply Forall_impl; [exact Fb|]. apply label_char_name. }
  assert (Hall : forall (P : ascii -> Prop),
             (forall c, Re.in_set name_chars c = true -> P c) ->
             P "@"%char -> P "."%char ->
             Forall P (loc ++ "@"%char :: dom ++ "."%char :: lab)).
  { intros P HP Hat Hdot. rewrite Forall_app, Forall_cons, Forall_app, Forall_cons.
    repeat split; try done; eapply Forall_impl; eauto. }
  split; [by exists loc, dom, lab|]. split; [|split; [|split; [|split]]].
  - apply Hall; [intros c Hc; by apply name_char_facts in Hc as (_ & _ & _ & ?) | done..].
  - rewrite count_occ_app, count_occ_cons_eq, count_occ_app, count_occ_cons_neq by done.
    rewrite !count_occ_absent; [done| | |].
    all: eapply Forall_impl; [eassumption|];
      intros c Hc; by apply name_char_facts in Hc as (_ & ? & _).
  - apply Hall; [intros c Hc; by apply name_char_facts in Hc as (? & _) | done..].
  - intros Hin.
    assert (HF : Forall (fun c => c <> LF) (loc ++ "@"%char :: dom ++ "."%char :: lab)).
    { apply Hall; [|done..]. intros c Hc. by apply name_char_facts in Hc as (_ & _ & ? & _). }
    rewrite Forall_forall in HF. by apply HF in Hin.
  - done.
Qed.

(** X16.  Every address stored by a successful run occurs in the text of a
    chunk at a place where it is not followed by a letter, a digit, an
    underscore or a hyphen: the label of an address is never cut short. *)
Theorem find_emails_label_complete p s texts (m : pystr) :
  fst (read_csv pandas p s) = inr (texts, None) ->
  m ∈ emails (snd (find_emails pandas set_order p s)) ->
  exists t u v,
    t ∈ texts /\ t = u ++ m ++ v /\
    forall c, head v = Some c -> Re.in_set label_chars c = false.
Proof.
  intros H Hm. destruct (elem_of_stored p s texts m H Hm) as (t & Ht & Hin).
  apply scan_maximal in Hin as (u & v & E & Hv); [|done].
  by exists t, u, v.
Qed.

End ExtractionMore.

Lemma find_emails_display_consistent_witness :
  result_text (snd (find_emails Sample.twice Sample.insertion_order Sample.csv
                      (init Sample.disk)))
  = join [LF] (emails (snd (find_emails Sample.twice Sample.insertion_order Sample.csv
                              (init Sample.disk)))).
Proof.
  apply (find_emails_display_consistent Sample.twice Sample.insertion_order
           (fun l => Permutation_refl l) Sample.csv (init Sample.disk)
           [lit "            email" ++ [LF] ++ lit "alice@example.com" ++ [LF]
            ++ lit "alice@example.com"]).
  vm_compute. reflexivity.
Defined.

Lemma find_emails_replaces_previous_witness :
  emails (snd (find_emails Sample.one_chunk Sample.insertion_order Sample.csv
                 (init Sample.disk)))
  = emails (snd (find_emails Sample.one_chunk Sample.insertion_order Sample.csv
                   (Sample.with_result Sample.disk))).
Proof.
  apply (find_emails_replaces_previous Sample.one_chunk Sample.insertion_order Sample.csv
           (init Sample.disk) (Sample.with_result Sample.disk)
           [lit "   email" ++ [LF] ++ lit "ab@cd.ef"]); [done | vm_compute; reflexivity].
Defined.

Lemma find_emails_no_at_sign_witness :
  emails (snd (find_emails Cases.no_address Sample.insertion_order Sample.csv
                 (Sample.with_result Sample.disk))) = [].
Proof.
  apply (find_emails_no_at_sign Cases.no_address Sample.insertion_order
           (fun l => Permutation_refl l) Sample.csv (Sample.with_result Sample.disk)
           [lit "name" ++ [LF] ++ lit " Bob"]); [vm_compute; reflexivity|].
  repeat constructor. intros Hin. vm_compute in Hin.
  repeat (apply elem_of_cons in Hin as [Hin|Hin]; [discriminate Hin|]). by apply elem_of_nil in Hin.
Defined.

Lemma find_emails_email_shape_witness :
  count_occ ascii_dec (lit "ab@cd.ef") "@"%char = 1%nat.
Proof.
  destruct (find_emails_email_shape Sample.one_chunk Sample.insertion_order
              (fun l => Permutation_refl l) Sample.csv (init Sample.disk)
              [lit "   email" ++ [LF] ++ lit "ab@cd.ef"] (lit "ab@cd.ef"))
    as (_ & _ & H & _); [vm_compute; reflexivity | vm_compute; left | exact H].
Defined.

Lemma find_emails_label_complete_witness :
  exists t u v,
    t ∈ [lit "   email" ++ [LF] ++ lit "ab@cd.ef"] /\ t = u ++ lit "ab@cd.ef" ++ v /\
    forall c, head v = Some c -> Re.in_set label_chars c = false.
Proof.
  apply (find_emails_label_complete Sample.one_chunk Sample.insertion_order
           (fun l => Permutation_refl l) Sample.csv (init Sample.disk)
           [lit "   email" ++ [LF] ++ lit "ab@cd.ef"] (lit "ab@cd.ef"));
    [vm_compute; reflexivity | vm_compute; left].
Defined.

(** ** Saving, the help window and a whole session *)

Section SaveMore.

Implicit Types (s : state) (p : pystr) (e : exn).

(** [save_results] with something to save and a chosen destination. *)
Lemma save_results_run p s :
  emails s <> [] -> p <> [] ->
  save_results p s =
    match fs s !! p with
    | None => (inr tt, saved p true s)
    | Some g =>
        if f_writable g then (inr tt, saved p (f_readable g) s)
        else (inr tt, save_failed p (PermissionError p) s)
    end.
Proof.
  intros He Hp. unfold save_results, bind at 1, get.
  rewrite (truthy_true (emails s)), (truthy_true p) by done. cbn [negb].
  unfold try_except, open_write, write, messagebox, logging, modify, raise, get, bind.
  destruct (fs s !! p) as [g|]; [destruct (f_writable g); [|done]|];
    unfold saved; cbn [fs set_fs set_boxes set_log boxes log emails];
    rewrite alter_insert_eq; cbn [f_data f_readable f_writable]; by rewrite app_nil_l.
Qed.



End SaveMore.





(** X19.  When the destination exists and may not be written,
    [save_results] catches the exception: it returns normally, shows the
    error box "Could not save the file: " with the [PermissionError], logs
    the error, and leaves every file and the stored result as they were. *)
Theorem save_results_unwritable (p : pystr) (s : state) (g : file) :
  emails s <> [] -> p <> [] -> fs s !! p = Some g -> f_writable g = false ->
  let s' := snd (save_results p s) in
  fst (save_results p s) = inr tt /\
  fs s' = fs s /\ emails s' = emails s /\
  boxes s' = boxes s ++
    [showerror (lit "Error") [Txt (lit "Could not save the file: "); Exc (PermissionError p)]] /\
  log s' = log s ++
    [(ERROR, [Txt (lit "Error saving file: " ++ p ++ lit ", Error: "); Exc (PermissionError p)])].
Proof.
  intros He Hp Hg Hw s'. subst s'. rewrite save_results_run by done. by rewrite Hg, Hw.
Qed.

Lemma save_results_unwritable_witness :
  fs (snd (save_results Sample.csv
             (Sample.with_result {[ Sample.csv := File true false Sample.csv_data ]})))
  = fs (Sample.with_result {[ Sample.csv := File true false Sample.csv_data ]}).
Proof.
  apply (save_results_unwritable Sample.csv
           (Sample.with_result {[ Sample.csv := File true false Sample.csv_data ]})
           (File true false Sample.csv_data)); [done | done | vm_compute; reflexivity | done].
Defined.

(** X20.  [save_results] never raises, never changes the stored result,
    the widgets or the workers, and never touches a file other than the
    destination chosen in the dialog. *)
Theorem save_results_frame (p : pystr) (s : state) :
  let s' := snd (save_results p s) in
  fst (save_results p s) = inr tt /\
  emails s' = emails s /\ result_text s' = result_text s /\
  status_label s' = status_label s /\ progress s' = progress s /\
  threads s' = threads s /\
  (forall q, q <> p -> fs s' !! q = fs s !! q).
Proof.
  intros s'. subst s'. destruct (decide (emails s = [])) as [He|He].
  { destruct s as [fs0 em rt st pr bx lg th]. cbn [emails] in He. subst em. done. }
  destruct (decide (p = [])) as [->|Hp].
  { unfold save_results, bind, get. rewrite (truthy_true (emails s)) by done. done. }
  rewrite save_results_run by done.
  destruct (fs s !! p) as [g|]; [destruct (f_writable g)|]; unfold saved, save_failed;
    cbn [fst snd fs emails result_text status_label progress threads set_fs set_boxes set_log];
    repeat split; intros q Hq; by rewrite lookup_insert_ne.
Qed.


(** ** A whole session *)

Section Session.

Variable pandas : reader.
Variable set_order : list pystr -> list pystr.
Hypothesis set_order_perm : forall l, set_order l ≡ₚ l.




End Session.

